(** * A model of the Tuya proxy (api/modules/tuya.js, lib/redis.js, app.js,
      api/data.js)

    The module obtains a bearer token from the vendor (cached in Redis),
    signs every request with HMAC-SHA256 and maps a few named actions onto
    signed requests; the endpoints guard it with an API key.  The JavaScript
    code is embedded as functions of a small state-and-exception monad over a
    trace of the calls made to the outside world (Redis, the vendor's HTTP
    endpoint, the clock).

    Strings are byte strings: a [string] holds the UTF-8 encoding of the
    JavaScript string, which is what the hash functions and the wire see.
    Numbers are IEEE 754 binary64 values (the kernel's primitive floats).
    Logging ([console.log] and friends) is left out: it has no effect on
    control flow. *)

From Stdlib Require Import ZArith List String Ascii Floats Lia Bool.
From stdpp Require Import gmap strings.
Import ListNotations.

#[local] Set Warnings "-register-all".

Local Open Scope string_scope.
Local Open Scope list_scope.
Local Open Scope Z_scope.

(** ** Bytes and strings *)

Definition bytes_of_string (s : string) : list Z :=
  map (fun c => Z.of_N (N_of_ascii c)) (list_ascii_of_string s).

Definition string_of_bytes (l : list Z) : string :=
  string_of_list_ascii (map (fun b => ascii_of_N (Z.to_N b)) l).

Definition hex_digit (d : Z) : ascii :=
  ascii_of_N (Z.to_N (if d <? 10 then 48 + d else 87 + d)).

(** [digest("hex")]: two lowercase digits per byte. *)
Definition hex_of_bytes (l : list Z) : string :=
  string_of_list_ascii
    (flat_map (fun b => [hex_digit (Z.shiftr b 4); hex_digit (Z.land b 15)]) l).

(** [String.prototype.toUpperCase] and [toLowerCase], on the ASCII letters
    (every string the module changes the case of is compared with, or used
    as, an ASCII word: an HTTP method, a hex digest, "on" and "off"). *)
Definition upper_ascii (c : ascii) : ascii :=
  let n := N_of_ascii c in
  if ((97 <=? n) && (n <=? 122))%N then ascii_of_N (n - 32) else c.

Definition lower_ascii (c : ascii) : ascii :=
  let n := N_of_ascii c in
  if ((65 <=? n) && (n <=? 90))%N then ascii_of_N (n + 32) else c.

Fixpoint toUpperCase (s : string) : string :=
  match s with
  | EmptyString => EmptyString
  | String c r => String (upper_ascii c) (toUpperCase r)
  end.

Fixpoint toLowerCase (s : string) : string :=
  match s with
  | EmptyString => EmptyString
  | String c r => String (lower_ascii c) (toLowerCase r)
  end.

Definition startsWith (s p : string) : bool := String.prefix p s.

Definition nl : string := String (ascii_of_nat 10) EmptyString.

(** A double quote. *)
Definition dq : string := String (ascii_of_nat 34) EmptyString.

(** Decimal digits of a non-negative integer ([Number.prototype.toString]
    on an integral time value). *)
Definition digit_char (d : Z) : ascii := ascii_of_N (Z.to_N (48 + d)).

Fixpoint dec_digits (fuel : nat) (n : Z) (acc : string) : string :=
  match fuel with
  | O => acc
  | S f =>
      let acc' := String (digit_char (n mod 10)) acc in
      if n <? 10 then acc' else dec_digits f (n / 10) acc'
  end.

Definition dec_of_Z (n : Z) : string :=
  if n <? 0 then "-" +:+ dec_digits (Z.to_nat (Z.log2 (- n)) + 1) (- n) ""
  else dec_digits (Z.to_nat (Z.log2 n) + 1) n "".

(** [s] padded on the left with zeros to [w] characters. *)
Definition pad_left (w : nat) (s : string) : string :=
  string_of_list_ascii (repeat "0"%char (w - String.length s)%nat) +:+ s.

(** ** SHA-256 and HMAC (FIPS 180-4, RFC 2104), as Node's [crypto] computes them *)

Module SHA256.

Definition mask32 : Z := 0xFFFFFFFF.
Definition add32 (x y : Z) : Z := Z.land (x + y) mask32.
Definition rotr (n x : Z) : Z :=
  Z.lor (Z.shiftr x n) (Z.land (Z.shiftl x (32 - n)) mask32).
Definition xor3 (x y z : Z) : Z := Z.lxor (Z.lxor x y) z.

Definition Ch (x y z : Z) : Z :=
  Z.lxor (Z.land x y) (Z.land (Z.lxor x mask32) z).
Definition Maj (x y z : Z) : Z := xor3 (Z.land x y) (Z.land x z) (Z.land y z).
Definition bsig0 (x : Z) : Z := xor3 (rotr 2 x) (rotr 13 x) (rotr 22 x).
Definition bsig1 (x : Z) : Z := xor3 (rotr 6 x) (rotr 11 x) (rotr 25 x).
Definition ssig0 (x : Z) : Z := xor3 (rotr 7 x) (rotr 18 x) (Z.shiftr x 3).
Definition ssig1 (x : Z) : Z := xor3 (rotr 17 x) (rotr 19 x) (Z.shiftr x 10).

(** The round constants are the first 32 bits of the fractional parts of the
    cube roots of the first 64 primes, the initial state those of the square
    roots of the first 8. *)
Fixpoint iroot (k : Z) (n : Z) (bits : nat) (acc : Z) : Z :=
  match bits with
  | O => acc
  | S b =>
      let c := Z.lor acc (Z.shiftl 1 (Z.of_nat b)) in
      iroot k n b (if c ^ k <=? n then c else acc)
  end.

Definition frac_root (k p : Z) : Z :=
  Z.land (iroot k (p * 2 ^ (32 * k)) 40 0) mask32.

Definition is_prime (n : Z) : bool :=
  (1 <? n) && forallb (fun d => negb (n mod d =? 0))
                      (map Z.of_nat (seq 2 (Z.to_nat n - 2))).

Definition primes : list Z :=
  Eval vm_compute in List.filter is_prime (map Z.of_nat (seq 2 310)).

Definition K : list Z := Eval vm_compute in map (frac_root 3) primes.
Definition H0 : list Z := Eval vm_compute in map (frac_root 2) (firstn 8 primes).

Fixpoint be_word (l : list Z) (acc : Z) : Z :=
  match l with
  | [] => acc
  | b :: r => be_word r (Z.lor (Z.shiftl acc 8) b)
  end.

Definition be_bytes (n : nat) (x : Z) : list Z :=
  map (fun i => Z.land (Z.shiftr x (8 * Z.of_nat i)) 255) (rev (seq 0 n)).

Fixpoint chunks {A} (fuel n : nat) (l : list A) : list (list A) :=
  match fuel, l with
  | S f, _ :: _ => firstn n l :: chunks f n (skipn n l)
  | _, _ => []
  end.

Definition pad (msg : list Z) : list Z :=
  let len := Z.of_nat (length msg) in
  let zeros := Z.to_nat ((55 - len) mod 64) in
  msg ++ 128 :: repeat 0 zeros ++ be_bytes 8 (8 * len).

(** The message schedule, newest word first. *)
Fixpoint schedule (n : nat) (w : list Z) : list Z :=
  match n with
  | O => w
  | S n' =>
      let x := add32 (add32 (ssig1 (nth 1 w 0)) (nth 6 w 0))
                     (add32 (ssig0 (nth 14 w 0)) (nth 15 w 0)) in
      schedule n' (x :: w)
  end.

Definition round (st : list Z) (kw : Z * Z) : list Z :=
  match st with
  | [a; b; c; d; e; f; g; h] =>
      let t1 := add32 (add32 (add32 h (bsig1 e)) (add32 (Ch e f g) (fst kw))) (snd kw) in
      let t2 := add32 (bsig0 a) (Maj a b c) in
      [add32 t1 t2; a; b; c; add32 d t1; e; f; g]
  | _ => st
  end.

Definition compress (st : list Z) (block : list Z) : list Z :=
  let w := rev (schedule 48 (rev (map (fun l => be_word l 0) (chunks 16 4 block)))) in
  let st' := fold_left round (combine K w) st in
  map (fun p => add32 (fst p) (snd p)) (combine st st').

Definition sha256 (msg : list Z) : list Z :=
  let p := pad msg in
  flat_map (be_bytes 4) (fold_left compress (chunks (length p) 64 p) H0).

Definition hmac (key msg : list Z) : list Z :=
  let k0 := if (64 <? length key)%nat then sha256 key else key in
  let k := k0 ++ repeat 0 (64 - length k0)%nat in
  sha256 (map (Z.lxor 0x5c) k ++ sha256 (map (Z.lxor 0x36) k ++ msg)).

End SHA256.

(** [crypto.createHash("sha256").update(s).digest("hex")] *)
Definition sha256_hex (s : string) : string :=
  hex_of_bytes (SHA256.sha256 (bytes_of_string s)).

(** [crypto.createHmac("sha256", key).update(s, "utf8").digest("hex")] *)
Definition hmac_sha256_hex (key s : string) : string :=
  hex_of_bytes (SHA256.hmac (bytes_of_string key) (bytes_of_string s)).

(** ** JavaScript values *)

Inductive JsVal : Type :=
| JUndefined
| JNull
| JBool (b : bool)
| JNum (x : float)
| JStr (s : string)
| JArr (items : list JsVal)
| JObj (fields : list (string * JsVal)).

Definition is_nan (x : float) : bool := negb (PrimFloat.eqb x x).

(** ToBoolean *)
Definition truthy (v : JsVal) : bool :=
  match v with
  | JUndefined | JNull => false
  | JBool b => b
  | JNum x => negb (PrimFloat.eqb x 0 || is_nan x)
  | JStr s => negb (String.eqb s "")
  | JArr _ | JObj _ => true
  end.

(** [a || b] *)
Definition js_or (a b : JsVal) : JsVal := if truthy a then a else b.

Definition is_nullish (v : JsVal) : bool :=
  match v with JUndefined | JNull => true | _ => false end.

Fixpoint assoc (k : string) (l : list (string * JsVal)) : JsVal :=
  match l with
  | [] => JUndefined
  | (k', v) :: r => if String.eqb k k' then v else assoc k r
  end.

(** [v.k] for a value that is neither null nor undefined and a key [k] that
    is a plain field name.  The fields the module reads (success, code, msg,
    result, access_token, expire_time, value) are defined on objects only:
    on an array, a string, a number or a boolean they are undefined. *)
Definition field (v : JsVal) (k : string) : JsVal :=
  match v with
  | JObj fs => assoc k fs
  | _ => JUndefined
  end.

(** [v?.k] *)
Definition opt_field (v : JsVal) (k : string) : JsVal :=
  if is_nullish v then JUndefined else field v k.

Definition isArray (v : JsVal) : bool :=
  match v with JArr _ => true | _ => false end.

(** *** Numeric literals

    The white space and line terminators that [parseFloat] and ToNumber
    skip, in UTF-8: TAB, LF, VT, FF, CR, SP, U+00A0, U+1680, U+2000 to
    U+200A, U+2028, U+2029, U+202F, U+205F, U+3000 and U+FEFF. *)
Definition ws_prefix (l : list Z) : nat :=
  match l with
  | 9 :: _ | 10 :: _ | 11 :: _ | 12 :: _ | 13 :: _ | 32 :: _ => 1%nat
  | 194 :: 160 :: _ => 2%nat
  | 225 :: 154 :: 128 :: _ => 3%nat
  | 226 :: 128 :: b :: _ =>
      if ((128 <=? b) && (b <=? 138)) || (b =? 168) || (b =? 169) || (b =? 175)
      then 3%nat else 0%nat
  | 226 :: 129 :: 159 :: _ => 3%nat
  | 227 :: 128 :: 128 :: _ => 3%nat
  | 239 :: 187 :: 191 :: _ => 3%nat
  | _ => 0%nat
  end.

Fixpoint skip_ws (fuel : nat) (l : list Z) : list Z :=
  match fuel with
  | O => l
  | S f => match ws_prefix l with
           | O => l
           | n => skip_ws f (skipn n l)
           end
  end.

Definition trim_start (l : list Z) : list Z := skip_ws (length l) l.

Definition digit_of (base : Z) (b : Z) : option Z :=
  let d := if (48 <=? b) && (b <=? 57) then b - 48
           else if (97 <=? b) && (b <=? 102) then b - 87
           else if (65 <=? b) && (b <=? 70) then b - 55
           else 99 in
  if d <? base then Some d else None.

(** The longest run of digits at the head of [l]: its value on top of
    [acc], how many digits, and what follows. *)
Fixpoint digits (base : Z) (l : list Z) (acc : Z) (n : Z) : Z * Z * list Z :=
  match l with
  | b :: r =>
      match digit_of base b with
      | Some d => digits base r (base * acc + d) (n + 1)
      | None => (acc, n, l)
      end
  | [] => (acc, n, l)
  end.

Definition sign_prefix (l : list Z) : bool * list Z :=
  match l with
  | 43 :: r => (false, r)
  | 45 :: r => (true, r)
  | _ => (false, l)
  end.

(** The double nearest to [m * 10^e10] (ties to even), negated if [neg]. *)
Definition round_decimal (neg : bool) (m e10 : Z) : float :=
  SF2Prim
    (if m =? 0 then S754_zero neg
     else if 0 <=? e10 then
       binary_normalize prec emax ((if neg then -1 else 1) * (m * 10 ^ e10)) 0 false
     else
       let '(q, e, l) := SFdiv_core_binary prec emax m 0 (10 ^ (- e10)) 0 in
       binary_round_aux prec emax neg q e l).

Definition starts_with_bytes (p l : list Z) : bool :=
  (length p <=? length l)%nat && forallb (fun x => fst x =? snd x) (combine p l).

(** The exponent part, if one is well formed at the head of [l]. *)
Definition exponent_part (l : list Z) : Z * list Z :=
  match l with
  | 101 :: r | 69 :: r =>
      let '(neg, r') := sign_prefix r in
      let '(e, n, rest) := digits 10 r' 0 0 in
      if 0 <? n then ((if neg then - e else e), rest) else (0, l)
  | _ => (0, l)
  end.

(** The longest prefix of [l] that is a StrDecimalLiteral: its value and
    what follows it; [None] when no prefix is one. *)
Definition decimal_literal (l : list Z) : option (float * list Z) :=
  let '(neg, l1) := sign_prefix l in
  let inf := bytes_of_string "Infinity" in
  if starts_with_bytes inf l1 then
    Some ((if neg then neg_infinity else infinity), skipn (length inf) l1)
  else
    let '(ip, ni, l2) := digits 10 l1 0 0 in
    let '(m, nf, l3) :=
      match l2 with
      | 46 :: r =>
          let '(m, nf, l3) := digits 10 r ip 0 in
          if (0 <? ni) || (0 <? nf) then (m, nf, l3) else (ip, 0, l2)
      | _ => (ip, 0, l2)
      end in
    if (ni + nf =? 0) then None
    else
      let '(e, l4) := exponent_part l3 in
      Some (round_decimal neg m (e - nf), l4).

(** [parseFloat] of a string. *)
Definition parseFloat_string (s : string) : float :=
  match decimal_literal (trim_start (bytes_of_string s)) with
  | Some (x, _) => x
  | None => nan
  end.

(** A literal in base 16, 8 or 2 (after its prefix), with nothing but
    white space after it. *)
Definition int_literal (base : Z) (l : list Z) : float :=
  let '(m, n, rest) := digits base l 0 0 in
  if (0 <? n) && (length (trim_start rest) =? 0)%nat then round_decimal false m 0 else nan.

(** StringToNumber: the whole string, white space at both ends apart, must
    be a numeric literal; the empty string is 0. *)
Definition StringToNumber (s : string) : float :=
  let l := trim_start (bytes_of_string s) in
  match l with
  | [] => 0%float
  | 48 :: 120 :: r | 48 :: 88 :: r => int_literal 16 r
  | 48 :: 111 :: r | 48 :: 79 :: r => int_literal 8 r
  | 48 :: 98 :: r | 48 :: 66 :: r => int_literal 2 r
  | _ =>
      match decimal_literal l with
      | Some (x, rest) => if (length (trim_start rest) =? 0)%nat then x else nan
      | None => nan
      end
  end.

Definition pos_zero (x : float) : float :=
  if PrimFloat.eqb x 0 then 0%float else x.

(** ToNumber.  An array is first turned into a string, its elements joined
    by commas (null and undefined elements as the empty string): the empty
    array is 0, an array of one element is what that element's string
    reads as (a number prints as a literal that reads back as itself, "0"
    for either zero), and a comma is no part of any literal. *)
Fixpoint ToNumber (v : JsVal) : float :=
  match v with
  | JUndefined => nan
  | JNull => 0
  | JBool b => if b then 1 else 0
  | JNum x => x
  | JStr s => StringToNumber s
  | JArr [] => 0
  | JArr [x] =>
      match x with
      | JUndefined | JNull => 0
      | JBool _ => nan
      | JNum y => pos_zero y
      | _ => ToNumber x
      end
  | JArr _ => nan
  | JObj _ => nan
  end.

(** [parseFloat v]: the argument is turned into a string first, of which
    the longest prefix that is a decimal literal counts. *)
Fixpoint parseFloat (v : JsVal) : float :=
  match v with
  | JNum x => pos_zero x
  | JStr s => parseFloat_string s
  | JArr (x :: _) =>
      match x with
      | JUndefined | JNull => nan
      | _ => parseFloat x
      end
  | _ => nan
  end.

(** [a > b], [a - b] and [a === n] for a number literal [n]. *)
Definition js_gt (a : JsVal) (n : float) : bool := PrimFloat.ltb n (ToNumber a).
Definition js_sub (a : JsVal) (n : float) : JsVal := JNum (PrimFloat.sub (ToNumber a) n).
Definition strict_eq_num (a : JsVal) (n : float) : bool :=
  match a with JNum x => PrimFloat.eqb x n | _ => false end.

(** [Date.prototype.toISOString] of a time value (milliseconds since the
    epoch, UTC): the civil date of the day number, then the time of day. *)
Definition civil_of_days (days : Z) : Z * Z * Z :=
  let z := days + 719468 in
  let era := z / 146097 in
  let doe := z - era * 146097 in
  let yoe := (doe - doe / 1460 + doe / 36524 - doe / 146096) / 365 in
  let doy := doe - (365 * yoe + yoe / 4 - yoe / 100) in
  let mp := (5 * doy + 2) / 153 in
  let d := doy - (153 * mp + 2) / 5 + 1 in
  let m := if mp <? 10 then mp + 3 else mp - 9 in
  let y := yoe + era * 400 + (if m <=? 2 then 1 else 0) in
  (y, m, d).

Definition iso_year (y : Z) : string :=
  if (0 <=? y) && (y <=? 9999) then pad_left 4 (dec_of_Z y)
  else (if y <? 0 then "-" else "+") +:+ pad_left 6 (dec_of_Z (Z.abs y)).

Definition toISOString (t : Z) : string :=
  let '(y, m, d) := civil_of_days (t / 86400000) in
  let ms := t mod 86400000 in
  iso_year y +:+ "-" +:+ pad_left 2 (dec_of_Z m) +:+ "-" +:+ pad_left 2 (dec_of_Z d)
  +:+ "T" +:+ pad_left 2 (dec_of_Z (ms / 3600000))
  +:+ ":" +:+ pad_left 2 (dec_of_Z (ms / 60000 mod 60))
  +:+ ":" +:+ pad_left 2 (dec_of_Z (ms / 1000 mod 60))
  +:+ "." +:+ pad_left 3 (dec_of_Z (ms mod 1000)) +:+ "Z".

(** [encodeURIComponent], byte by byte over the UTF-8 encoding. *)
Definition uri_unreserved (b : Z) : bool :=
  ((48 <=? b) && (b <=? 57)) || ((65 <=? b) && (b <=? 90)) || ((97 <=? b) && (b <=? 122))
  || existsb (Z.eqb b) [45; 95; 46; 33; 126; 42; 39; 40; 41].

Definition encodeURIComponent (s : string) : string :=
  string_of_list_ascii
    (flat_map (fun b =>
       if uri_unreserved b then [ascii_of_N (Z.to_N b)]
       else "%"%char :: list_ascii_of_string
              (toUpperCase (hex_of_bytes [b])))
     (bytes_of_string s)).

(** ** The outside world *)

(** A Redis client handle. *)
Definition Conn := nat.

(** What a call to the outside answers: a failure (the promise rejects, with
    the error's message) or a value. *)
Inductive Reply (A : Type) : Type :=
| Failed (message : string)
| Done (a : A).
Arguments Failed {A} message.
Arguments Done {A} a.

(** An HTTP request as axios is given it. *)
Record Request : Type := {
  req_method : string;
  req_url : string;
  req_headers : list (string * JsVal);
  req_data : option JsVal;
  req_timeout : Z
}.

(** What the network answers: nothing (no connection, no answer in time), or
    a status and a decoded body. *)
Inductive HttpReply : Type :=
| NoResponse (message : string)
| Response (status : Z) (data : JsVal).

(** The calls the module makes to the outside, with their answers. *)
Inductive Event : Type :=
| Clock (t : Z)
| RedisConnect (url : string) (r : Reply Conn)
| RedisGet (c : Conn) (key : string) (r : Reply (option string))
| RedisSet (c : Conn) (key : string) (value : JsVal) (ex : JsVal) (r : Reply unit)
| RedisDel (c : Conn) (key : string) (r : Reply unit)
| RedisQuit (c : Conn) (r : Reply unit)
| Http (req : Request) (r : HttpReply).

(** The history of a run, newest event first. *)
Definition Trace := list Event.

(** Everything the module does not define: the process environment, the
    clock, the Redis server, the vendor's endpoint and three functions of the
    JavaScript runtime.  An answer may depend on all that happened before. *)
Record Environment : Type := {
  process_env : gmap string string;
  Date_now : Trace -> Z;
  redis_connect : Trace -> string -> Reply unit;
  redis_get : Trace -> Conn -> string -> Reply (option string);
  redis_set : Trace -> Conn -> string -> JsVal -> JsVal -> Reply unit;
  redis_del : Trace -> Conn -> string -> Reply unit;
  redis_quit : Trace -> Conn -> Reply unit;
  http : Trace -> Request -> HttpReply;
  Number_toString : float -> string;
  JSON_stringify : JsVal -> string;
  JSON_parse : string -> JsVal + string
}.

(** ** Exceptions and the monad *)

(** What is thrown, by where it comes from: [new Error(message)] of
    tuya.js, a [TypeError] of the runtime, what lib/redis.js and the Redis
    client throw, and what axios rejects with (with the response, when
    there is one). *)
Inductive JsError : Type :=
| Error (message : string)
| TypeError (message : string)
| RedisError (message : string)
| AxiosError (message : string) (response : option (Z * JsVal)).

Definition error_message (e : JsError) : string :=
  match e with
  | Error m | TypeError m | RedisError m | AxiosError m _ => m
  end.

(** [error.response?.data] *)
Definition error_response_data (e : JsError) : JsVal :=
  match e with
  | AxiosError _ (Some (_, d)) => d
  | _ => JUndefined
  end.

(** How a computation ends: with a value, with an exception, or not within
    the recursion depth it was given. *)
Inductive Outcome (A : Type) : Type :=
| Return (a : A)
| Throw (e : JsError)
| OutOfFuel.
Arguments Return {A} a.
Arguments Throw {A} e.
Arguments OutOfFuel {A}.

(** Computations over a state [S]: the trace, or the trace together with
    the local variables a [catch] or [finally] block reads. *)
Definition M (S A : Type) : Type := S -> Outcome A * S.

Definition ret {S A} (a : A) : M S A := fun s => (Return a, s).
Definition throw {S A} (e : JsError) : M S A := fun s => (Throw e, s).
Definition out_of_fuel {S A} : M S A := fun s => (OutOfFuel, s).

Definition bind {S A B} (m : M S A) (k : A -> M S B) : M S B :=
  fun s =>
    match m s with
    | (Return a, s') => k a s'
    | (Throw e, s') => (Throw e, s')
    | (OutOfFuel, s') => (OutOfFuel, s')
    end.

(** [try { m } catch (e) { h e }] *)
Definition try_catch {S A} (m : M S A) (h : JsError -> M S A) : M S A :=
  fun s =>
    match m s with
    | (Throw e, s') => h e s'
    | r => r
    end.

(** [try { m } finally { f }]: [f] runs however [m] ends, and [m]'s outcome
    stands unless [f] itself throws. *)
Definition try_finally {S A} (m : M S A) (f : M S unit) : M S A :=
  fun s =>
    match m s with
    | (OutOfFuel, s') => (OutOfFuel, s')
    | (r, s') =>
        match f s' with
        | (Return _, s'') => (r, s'')
        | (Throw e, s'') => (Throw e, s'')
        | (OutOfFuel, s'') => (OutOfFuel, s'')
        end
    end.

(** [try { m } catch (e) { /* ignore */ }] *)
Definition ignore_errors {S} (m : M S unit) : M S unit :=
  try_catch m (fun _ => ret tt).

(** A block with one local variable, initially [init]. *)
Definition with_local {L A} (init : L) (m : M (L * Trace) A) : M Trace A :=
  fun t => let '(r, (_, t')) := m (init, t) in (r, t').

Definition lift {L A} (m : M Trace A) : M (L * Trace) A :=
  fun s => let '(r, t') := m (snd s) in (r, (fst s, t')).

Definition read_local {L} : M (L * Trace) L := fun s => (Return (fst s), s).
Definition assign {L} (v : L) : M (L * Trace) unit := fun s => (Return tt, (v, snd s)).

Declare Scope js_scope.
Delimit Scope js_scope with js.
Notation "'do' x <- m ; k" := (bind m (fun x => k))
  (at level 10, x name, m at level 100, k at level 200) : js_scope.
Notation "'run' m ; k" := (bind m (fun _ => k))
  (at level 10, m at level 100, k at level 200) : js_scope.
Local Open Scope js_scope.

(** ** The program *)

Section Program.

Variable E : Environment.

(** [process.env.NAME], and whether it is set to a non-empty string. *)
Definition env (name : string) : string := default "" (process_env E !! name).
Definition env_set (name : string) : bool := negb (String.eqb (env name) "").

(** ToString, as string concatenation and template literals apply it. *)
Fixpoint ToString (v : JsVal) : string :=
  match v with
  | JUndefined => "undefined"
  | JNull => "null"
  | JBool b => if b then "true" else "false"
  | JNum x => Number_toString E x
  | JStr s => s
  | JArr l =>
      String.concat "," (map (fun x => if is_nullish x then "" else ToString x) l)
  | JObj _ => "[object Object]"
  end.

(** [v.k], which throws on null and undefined. *)
Definition get_field {S} (v : JsVal) (k : string) : M S JsVal :=
  if is_nullish v then
    throw (TypeError ("Cannot read properties of " +:+ ToString v
                      +:+ " (reading '" +:+ k +:+ "')"))
  else ret (field v k).

(** *** The calls to the outside *)

Definition now : M Trace Z :=
  fun tr => let t := Date_now E tr in (Return t, Clock t :: tr).

Definition client_connect (url : string) : M Trace Conn :=
  fun tr =>
    match redis_connect E tr url with
    | Failed m => (Throw (RedisError m), RedisConnect url (Failed m) :: tr)
    | Done _ => let c := length tr in (Return c, RedisConnect url (Done c) :: tr)
    end.

Definition client_get (c : Conn) (key : string) : M Trace (option string) :=
  fun tr =>
    let r := redis_get E tr c key in
    match r with
    | Failed m => (Throw (RedisError m), RedisGet c key r :: tr)
    | Done v => (Return v, RedisGet c key r :: tr)
    end.

Definition client_set (c : Conn) (key : string) (value ex : JsVal) : M Trace unit :=
  fun tr =>
    let r := redis_set E tr c key value ex in
    match r with
    | Failed m => (Throw (RedisError m), RedisSet c key value ex r :: tr)
    | Done _ => (Return tt, RedisSet c key value ex r :: tr)
    end.

Definition client_del (c : Conn) (key : string) : M Trace unit :=
  fun tr =>
    let r := redis_del E tr c key in
    match r with
    | Failed m => (Throw (RedisError m), RedisDel c key r :: tr)
    | Done _ => (Return tt, RedisDel c key r :: tr)
    end.

Definition client_quit (c : Conn) : M Trace unit :=
  fun tr =>
    let r := redis_quit E tr c in
    match r with
    | Failed m => (Throw (RedisError m), RedisQuit c r :: tr)
    | Done _ => (Return tt, RedisQuit c r :: tr)
    end.

(** [axios(config)]: the promise rejects when there is no response and when
    [validateStatus] refuses the status. *)
Definition axios (validateStatus : Z -> bool) (req : Request) : M Trace (Z * JsVal) :=
  fun tr =>
    let r := http E tr req in
    match r with
    | NoResponse m => (Throw (AxiosError m None), Http req r :: tr)
    | Response status data =>
        if validateStatus status then (Return (status, data), Http req r :: tr)
        else (Throw (AxiosError ("Request failed with status code " +:+ dec_of_Z status)
                                (Some (status, data))),
              Http req r :: tr)
    end.

(** axios' own [validateStatus], used when the configuration gives none. *)
Definition default_validateStatus (status : Z) : bool :=
  (200 <=? status) && (status <? 300).

(** *** lib/redis.js *)

(** The [reconnectStrategy] handed to the client: an error after three
    retries, a delay in milliseconds before. *)
Definition reconnectStrategy (retries : Z) : JsError + Z :=
  if 3 <? retries then inl (Error "Redis reconnect failed")
  else inr (Z.min (retries * 50) 500).

Definition connectTimeout : Z := 5000.

Definition getRedisClient : M Trace Conn :=
  if negb (env_set "REDIS_HOST") || negb (env_set "REDIS_PORT")
     || negb (env_set "REDIS_PASSWORD")
  then throw (RedisError "Redis environment variables are not defined")
  else
    let redisPassword := encodeURIComponent (env "REDIS_PASSWORD") in
    let redisUrl := "redis://default:" +:+ redisPassword +:+ "@"
                    +:+ env "REDIS_HOST" +:+ ":" +:+ env "REDIS_PORT" in
    try_catch (client_connect redisUrl) (fun error => throw error).

(** *** api/modules/tuya.js *)

Record Signature : Type := {
  sign : string;
  timestamp : string;
  clientId : string
}.

(** [generateSign(method, path, body = "", token = "")] *)
Definition generateSign (method path body : string) (token : JsVal) : M Trace Signature :=
  if negb (env_set "TUYA_CLIENT_ID") || negb (env_set "TUYA_CLIENT_SECRET") then
    throw (Error "Missing Tuya API credentials")
  else
    do t <- now ;
    let timestamp := dec_of_Z t in
    let contentHash := sha256_hex body in
    let stringToSign := method +:+ nl +:+ contentHash +:+ nl +:+ nl +:+ path in
    let signStr := env "TUYA_CLIENT_ID" +:+ ToString token +:+ timestamp +:+ stringToSign in
    ret {| sign := toUpperCase (hmac_sha256_hex (env "TUYA_CLIENT_SECRET") signStr);
           timestamp := timestamp;
           clientId := env "TUYA_CLIENT_ID" |}.

(** The signature of a request as a function of what goes into it and of the
    reading [t] of the clock. *)
Definition signature_of (method path body : string) (token : JsVal) (t : Z) : Signature :=
  {| sign := toUpperCase
               (hmac_sha256_hex (env "TUYA_CLIENT_SECRET")
                  (env "TUYA_CLIENT_ID" +:+ ToString token +:+ dec_of_Z t +:+
                   (method +:+ nl +:+ sha256_hex body +:+ nl +:+ nl +:+ path)));
     timestamp := dec_of_Z t;
     clientId := env "TUYA_CLIENT_ID" |}.

Definition base_url : string := "https://openapi.tuyaeu.com".
Definition redisKey : string := "tuya_token".

(** [if (token)] on what Redis answered: a non-empty string. *)
Definition cached (v : option string) : option string :=
  match v with
  | Some s => if String.eqb s "" then None else Some s
  | None => None
  end.

(** [getAccessToken()].  The local variable is [redisClient]; the inner
    block yields the cached token when the function returns from there. *)
Definition getAccessToken : M Trace JsVal :=
  with_local (None : option Conn)
    (try_catch
       (do hit <-
          try_catch
            (do c <- lift getRedisClient ;
             run assign (Some c) ;
             do token <- lift (client_get c redisKey) ;
             match cached token with
             | Some t => run lift (client_quit c) ; ret (Some t)
             | None => ret None
             end)
            (fun redisError =>
               do redisClient <- read_local ;
               match redisClient with
               | Some c =>
                   run ignore_errors (lift (client_quit c)) ;
                   run assign None ;
                   ret None
               | None => ret None
               end) ;
        match hit with
        | Some t => ret (JStr t)
        | None =>
            let path := "/v1.0/token?grant_type=1" in
            do sg <- lift (generateSign "GET" path "" (JStr "")) ;
            do response <- lift (axios default_validateStatus
              {| req_method := "get";
                 req_url := base_url +:+ path;
                 req_headers := [("client_id", JStr (clientId sg)); ("sign", JStr (sign sg));
                                 ("t", JStr (timestamp sg)); ("sign_method", JStr "HMAC-SHA256")];
                 req_data := None;
                 req_timeout := 10000 |}) ;
            let data := snd response in
            if negb (truthy (opt_field data "success"))
               || negb (truthy (opt_field (field data "result") "access_token"))
            then
              throw (Error ("Error getting token: " +:+
                ToString (js_or (opt_field data "msg") (JStr "Invalid response from Tuya API"))))
            else
              let token := field (field data "result") "access_token" in
              let expireTime := field (field data "result") "expire_time" in
              let ttl := if js_gt expireTime 60 then js_sub expireTime 60 else expireTime in
              do redisClient <- read_local ;
              run match redisClient with
                  | None =>
                      try_catch (do c <- lift getRedisClient ; assign (Some c))
                                (fun redisReconnectError => ret tt)
                  | Some _ => ret tt
                  end ;
              do redisClient <- read_local ;
              run match redisClient with
                  | Some c =>
                      try_finally
                        (try_catch
                           (if js_gt ttl 0 then lift (client_set c redisKey token ttl)
                            else ret tt)
                           (fun redisSaveError => ret tt))
                        (try_catch
                           (run lift (client_quit c) ; assign None)
                           (fun redisQuitError => ret tt))
                  | None => ret tt
                  end ;
              ret token
        end)
       (fun error =>
          do redisClient <- read_local ;
          run match redisClient with
              | Some c => ignore_errors (lift (client_quit c))
              | None => ret tt
              end ;
          throw error)).

Definition includes (l : list string) (s : string) : bool := existsb (String.eqb s) l.

(** [makeCustomRequest(method, path, data = null, retry = true)].  [fuel]
    bounds the depth of the recursion.  The local variable of the inner
    block is [redisClientDel].  The promise of the recursive call is
    returned as it is, so what it throws reaches the caller unchanged; the
    outer [catch] only logs and throws again. *)
Fixpoint makeCustomRequest (fuel : nat) (method path : string) (data : JsVal)
    (retry : bool) : M Trace JsVal :=
  match fuel with
  | O => out_of_fuel
  | S fuel' =>
      try_catch
        (do access_token <- getAccessToken ;
         let body := if truthy data then JSON_stringify E data else "" in
         do sg <- generateSign (toUpperCase method) path body access_token ;
         let requestConfig :=
           {| req_method := toUpperCase method;
              req_url := base_url +:+ path;
              req_headers := [("client_id", JStr (clientId sg));
                              ("access_token", access_token);
                              ("sign", JStr (sign sg));
                              ("t", JStr (timestamp sg));
                              ("sign_method", JStr "HMAC-SHA256");
                              ("Content-Type", JStr "application/json")];
              req_data := if truthy data
                             && includes ["POST"; "PUT"; "PATCH"] (toUpperCase method)
                          then Some data else None;
              req_timeout := 10000 |} in
         do response <- axios (fun status => (200 <=? status) && (status <? 500))
                              requestConfig ;
         let '(status, rdata) := response in
         if strict_eq_num (opt_field rdata "code") 1010 && retry then
           run with_local (None : option Conn)
                 (try_finally
                    (try_catch
                       (do c <- lift getRedisClient ;
                        run assign (Some c) ;
                        lift (client_del c "tuya_token"))
                       (fun redisError => ret tt))
                    (do redisClientDel <- read_local ;
                     match redisClientDel with
                     | Some c => ignore_errors (lift (client_quit c))
                     | None => ret tt
                     end)) ;
           makeCustomRequest fuel' method path data false
         else
           run (if 400 <=? status then ret tt
                else do success <- get_field rdata "success" ; ret tt) ;
           ret rdata)
        (fun error => throw error)
  end.

(** [queryParams.name]: the parameters are strings, and every use of one
    first tests it for truth, which an absent parameter and the empty
    string both fail. *)
Definition param (queryParams : gmap string string) (name : string) : string :=
  default "" (queryParams !! name).

Definition given (queryParams : gmap string string) (name : string) : bool :=
  negb (String.eqb (param queryParams name) "").

Definition first_item (v : JsVal) : JsVal :=
  match v with
  | JArr (x :: _) => x
  | _ => JUndefined
  end.

Definition array_length (v : JsVal) : nat :=
  match v with
  | JArr l => length l
  | _ => O
  end.

Definition is_undefined (v : JsVal) : bool :=
  match v with JUndefined => true | _ => false end.

(** The test the status action puts the envelope to:
    [result.success && Array.isArray(result.result) && result.result.length > 0
     && result.result[0]?.value !== undefined]. *)
Definition has_reading (result : JsVal) : bool :=
  truthy (field result "success") && isArray (field result "result")
  && (0 <? array_length (field result "result"))%nat
  && negb (is_undefined (opt_field (first_item (field result "result")) "value")).

(** The function the module exports, [module.exports = async (queryParams = {}) => ...],
    which its callers name [tuyaModule]. *)
Definition tuyaModule (fuel : nat) (queryParams : gmap string string) : M Trace JsVal :=
  if negb (env_set "TUYA_CLIENT_ID") || negb (env_set "TUYA_CLIENT_SECRET") then
    ret (JObj [("success", JBool false);
               ("message", JStr "Server error: Missing Tuya credentials.")])
  else
    try_catch
      (let action := if given queryParams "action" then param queryParams "action"
                     else "test" in
       if String.eqb action "test" then
         do t <- now ;
         ret (JObj [("success", JBool true);
                    ("message", JStr "Tuya module working");
                    ("timestamp", JStr (toISOString t))])
       else if String.eqb action "request" && given queryParams "path" then
         let method := toUpperCase (if given queryParams "method"
                                    then param queryParams "method" else "GET") in
         let path := if startsWith (param queryParams "path") "/"
                     then param queryParams "path"
                     else "/" +:+ param queryParams "path" in
         match (if given queryParams "data" then JSON_parse E (param queryParams "data")
                else inl JNull) with
         | inr message =>
             ret (JObj [("success", JBool false);
                        ("message", JStr "Invalid JSON format in data parameter");
                        ("error", JStr message)])
         | inl data =>
             do result <- makeCustomRequest fuel method path data true ;
             do success <- get_field result "success" ;
             ret (JObj [("success", success);
                        ("path", JStr path);
                        ("method", JStr method);
                        ("result", result);
                        ("message", JStr ("Request " +:+ method +:+ " " +:+ path
                                          +:+ " processed."))])
         end
       else if String.eqb action "status" && given queryParams "id" then
         let deviceId := param queryParams "id" in
         let path := "/v1.0/iot-03/devices/" +:+ deviceId +:+ "/status" in
         do result <- makeCustomRequest fuel "GET" path JNull true ;
         do success <- get_field result "success" ;
         if has_reading result then
           let parsedValue :=
             PrimFloat.div (parseFloat (field (first_item (field result "result")) "value")) 10 in
           ret (JNum parsedValue)
         else
           ret (JObj [("success", JBool false);
                      ("message", JStr "Failed to parse device status data");
                      ("tuya_response", result)])
       else if String.eqb action "devices" then
         let path := "/v1.0/users/me/devices" in
         do result <- makeCustomRequest fuel "GET" path JNull true ;
         do success <- get_field result "success" ;
         ret (JObj [("success", success);
                    ("devices", js_or (field result "result") (JArr []));
                    ("message", JStr (if truthy success then "Tuya device list retrieved"
                                      else "Error getting device list: " +:+
                                           ToString (js_or (field result "msg")
                                                           (JStr "Unknown error"))));
                    ("tuya_code", field result "code");
                    ("tuya_msg", field result "msg")])
       else if String.eqb action "state" && given queryParams "id" then
         let deviceId := param queryParams "id" in
         let path := "/v1.0/devices/" +:+ deviceId in
         do result <- makeCustomRequest fuel "GET" path JNull true ;
         do success <- get_field result "success" ;
         ret (JObj [("success", success);
                    ("state", js_or (field result "result") JNull);
                    ("message", JStr (if truthy success then "State for device " +:+ deviceId
                                      else "Error getting state: " +:+
                                           ToString (js_or (field result "msg")
                                                           (JStr "Unknown error"))));
                    ("tuya_code", field result "code");
                    ("tuya_msg", field result "msg")])
       else if String.eqb action "control" && given queryParams "id"
               && given queryParams "command" then
         let deviceId := param queryParams "id" in
         let command := toLowerCase (param queryParams "command") in
         if negb (String.eqb command "on") && negb (String.eqb command "off") then
           ret (JObj [("success", JBool false);
                      ("message", JStr ("Invalid command. Only " +:+ dq +:+ "on" +:+ dq +:+ " or "
                                        +:+ dq +:+ "off" +:+ dq +:+ " are supported."))])
         else
           let path := "/v1.0/devices/" +:+ deviceId +:+ "/commands" in
           let commandCode := if given queryParams "code" then param queryParams "code"
                              else "switch_1" in
           let payload :=
             JObj [("commands",
                    JArr [JObj [("code", JStr commandCode);
                                ("value", JBool (String.eqb command "on"))]])] in
           do result <- makeCustomRequest fuel "POST" path payload true ;
           do success <- get_field result "success" ;
           ret (JObj [("success", success);
                      ("result", field result "result");
                      ("message", JStr (if truthy success
                         then "Command " +:+ command +:+ " (code: " +:+ commandCode
                              +:+ ") successfully sent to device " +:+ deviceId
                         else "Error sending command to device " +:+ deviceId +:+ ": " +:+
                              ToString (js_or (field result "msg") (JStr "Unknown error"))));
                      ("tuya_code", field result "code");
                      ("tuya_msg", field result "msg")])
       else
         ret (JObj [("success", JBool false);
                    ("message", JStr "Unknown action or missing required parameters.");
                    ("action", JStr action)]))
      (fun error =>
         ret (JObj [("success", JBool false);
                    ("error", JStr (error_message error));
                    ("tuya_response", error_response_data error);
                    ("message", JStr "Internal error processing Tuya request.")])).

End Program.

(** What the control action answers to a command it does not know. *)
Definition invalid_command : JsVal :=
  JObj [("success", JBool false);
        ("message", JStr ("Invalid command. Only " +:+ dq +:+ "on" +:+ dq +:+ " or "
                          +:+ dq +:+ "off" +:+ dq +:+ " are supported."))].

(** *** app.js and api/data.js

    A handler is given the request and the response object of Express (or
    of the serverless platform, for api/data.js).  Of the request, the
    handlers read [req.query.api_key]; what they do with the response is
    set a status (200 when none is set) and give a body to [res.json]. *)

Record Answer : Type := {
  ans_status : Z;
  ans_body : JsVal
}.

Section Endpoints.

Variable E : Environment.

(** [apiKey !== validApiKey], where [validApiKey] is [process.env.API_KEY],
    a string or undefined. *)
Definition differs (apiKey : JsVal) (validApiKey : option string) : bool :=
  match apiKey, validApiKey with
  | JStr s, Some s' => negb (String.eqb s s')
  | JUndefined, None => false
  | _, _ => true
  end.

(** app.js, [validateApiKey(req, res, next)]: the answer it sends, or
    [None] when it calls [next()]. *)
Definition validateApiKey (apiKey : JsVal) : option Answer :=
  let validApiKey := process_env E !! "API_KEY" in
  if negb (truthy apiKey) || differs apiKey validApiKey then
    Some {| ans_status := 401;
            ans_body := JObj [("success", JBool false);
                              ("message", JStr "Unauthorized: Invalid or missing API key")] |}
  else None.

(** app.js, the handler of GET /data. *)
Definition data_handler (fuel : nat) : M Trace Answer :=
  try_catch
    (let deviceId := env E "DEVICE_ID" in
     if negb (env_set E "DEVICE_ID") then
       ret {| ans_status := 500;
              ans_body := JObj [("success", JBool false);
                                ("message",
                                 JStr "Server configuration error: Device ID not set")] |}
     else
       do result <- tuyaModule E fuel (<["action" := "status"]> (<["id" := deviceId]> ∅)) ;
       ret {| ans_status := 200; ans_body := result |})
    (fun error =>
       ret {| ans_status := 500;
              ans_body := JObj [("success", JBool false);
                                ("message", JStr "Internal server error");
                                ("error", JStr (error_message error))] |}).

(** app.js, [app.get('/data', validateApiKey, handler)]: the handler runs
    when the middleware calls [next()]. *)
Definition get_data (fuel : nat) (apiKey : JsVal) : M Trace Answer :=
  match validateApiKey apiKey with
  | Some answer => ret answer
  | None => data_handler fuel
  end.

(** app.js, the handler of GET /health. *)
Definition get_health : M Trace Answer :=
  do t <- now E ;
  ret {| ans_status := 200;
         ans_body := JObj [("status", JStr "ok"); ("timestamp", JStr (toISOString t))] |}.

(** api/data.js, the handler it exports. *)
Definition api_data (fuel : nat) (apiKey : JsVal) : M Trace Answer :=
  let validApiKey := process_env E !! "API_KEY" in
  if negb (truthy apiKey) || differs apiKey validApiKey then
    ret {| ans_status := 401;
           ans_body := JObj [("success", JBool false);
                             ("message", JStr "Unauthorized: Invalid or missing API key")] |}
  else
    try_catch
      (let deviceId := env E "DEVICE_ID" in
       if negb (env_set E "DEVICE_ID") then
         ret {| ans_status := 500;
                ans_body := JObj [("success", JBool false);
                                  ("message",
                                   JStr "Server configuration error: Device ID not set")] |}
       else
         do result <- tuyaModule E fuel (<["action" := "status"]> (<["id" := deviceId]> ∅)) ;
         ret {| ans_status := 200; ans_body := result |})
      (fun error =>
         ret {| ans_status := 500;
                ans_body := JObj [("success", JBool false);
                                  ("message", JStr "Internal server error");
                                  ("error", JStr (error_message error))] |}).

End Endpoints.


(** ** Reading a trace *)

(** A request to a resource of the vendor carries the bearer token in its
    headers; the request for a token to the vendor's auth endpoint does not. *)
Definition carries_token (req : Request) : bool :=
  existsb (fun h => String.eqb (fst h) "access_token") (req_headers req).

Definition is_api_call (ev : Event) : bool :=
  match ev with Http req _ => carries_token req | _ => false end.

Definition is_auth_call (ev : Event) : bool :=
  match ev with Http req _ => negb (carries_token req) | _ => false end.

Definition is_http (ev : Event) : bool :=
  match ev with Http _ _ => true | _ => false end.

Definition is_redis (ev : Event) : bool :=
  match ev with
  | RedisConnect _ _ | RedisGet _ _ _ | RedisSet _ _ _ _ _ | RedisDel _ _ _
  | RedisQuit _ _ => true
  | _ => false
  end.

Definition is_set (ev : Event) : bool :=
  match ev with RedisSet _ _ _ _ _ => true | _ => false end.

Definition is_del (ev : Event) : bool :=
  match ev with RedisDel _ _ _ => true | _ => false end.

Definition is_quit_of (c : Conn) (ev : Event) : bool :=
  match ev with RedisQuit c' _ => Nat.eqb c c' | _ => false end.

Definition count (p : Event -> bool) (evs : Trace) : nat :=
  length (List.filter p evs).

(** The calls to the vendor's resources, to its auth endpoint, and the
    writes to the cache, among [evs]. *)
Definition api_calls : Trace -> nat := count is_api_call.
Definition auth_calls : Trace -> nat := count is_auth_call.
Definition cache_writes : Trace -> nat := count is_set.
Definition cache_deletes : Trace -> nat := count is_del.
Definition quits (c : Conn) : Trace -> nat := count (is_quit_of c).

(** What was written to the cache in [evs]: key, value and time to live. *)
Definition writes (evs : Trace) : list (string * JsVal * JsVal) :=
  flat_map (fun ev => match ev with
                      | RedisSet _ k v ex _ => [(k, v, ex)]
                      | _ => []
                      end) evs.

(** What the vendor answered in [evs]: status and body. *)
Definition responses (evs : Trace) : list (Z * JsVal) :=
  flat_map (fun ev => match ev with
                      | Http _ (Response status data) => [(status, data)]
                      | _ => []
                      end) evs.

(** The tokens the cache answered a read with in [evs]. *)
Definition hits (evs : Trace) : list string :=
  flat_map (fun ev => match ev with
                      | RedisGet _ _ (Done v) =>
                          match cached v with Some t => [t] | None => [] end
                      | _ => []
                      end) evs.

(** How many calls of [quit] failed in [evs]. *)
Definition failed_quits : Trace -> nat :=
  count (fun ev => match ev with RedisQuit _ (Failed _) => true | _ => false end).

(** No call to the network or to the cache among [evs]. *)
Definition no_outside_call (evs : Trace) : Prop :=
  forall ev, In ev evs -> is_http ev = false /\ is_redis ev = false.

(** The handles the connections made in [evs] returned. *)
Fixpoint acquired (evs : Trace) : list Conn :=
  match evs with
  | [] => []
  | RedisConnect _ (Done c) :: r => c :: acquired r
  | _ :: r => acquired r
  end.

(** ** Worlds *)

(** Both vendor credentials are set. *)
Definition credentials_set (E : Environment) : Prop :=
  env_set E "TUYA_CLIENT_ID" = true /\ env_set E "TUYA_CLIENT_SECRET" = true.

(** A token response the module accepts: a status axios resolves with, a
    truthy [success] and a truthy [result.access_token]. *)
Definition grants_token (status : Z) (data : JsVal) : bool :=
  default_validateStatus status
  && truthy (opt_field data "success")
  && truthy (opt_field (field data "result") "access_token").

Definition granted_token (data : JsVal) : JsVal :=
  field (field data "result") "access_token".

(** The time to live the module computes from a token response. *)
Definition ttl_of (data : JsVal) : JsVal :=
  let expireTime := field (field data "result") "expire_time" in
  if js_gt expireTime 60 then js_sub expireTime 60 else expireTime.

(** The vendor's auth endpoint always grants a token. *)
Definition auth_grants (E : Environment) : Prop :=
  forall tr req, carries_token req = false ->
    exists status data, http E tr req = Response status data
                        /\ grants_token status data = true.

(** Every answer of the vendor to a request for a resource is an envelope
    whose [code] is the sentinel 1010. *)
Definition is_sentinel (status : Z) (data : JsVal) : bool :=
  (200 <=? status) && (status <? 500) && strict_eq_num (opt_field data "code") 1010.

Definition always_sentinel (E : Environment) : Prop :=
  forall tr req, carries_token req = true ->
    exists status data, http E tr req = Response status data
                        /\ is_sentinel status data = true.

(** Every connection, read and write of the cache fails. *)
Definition cache_down (E : Environment) : Prop :=
  (forall tr url, exists m, redis_connect E tr url = Failed m)
  /\ (forall tr c k, exists m, redis_get E tr c k = Failed m)
  /\ (forall tr c k v ex, exists m, redis_set E tr c k v ex = Failed m).

(** Every connection to the cache succeeds. *)
Definition cache_reachable (E : Environment) : Prop :=
  env_set E "REDIS_HOST" = true /\ env_set E "REDIS_PORT" = true
  /\ env_set E "REDIS_PASSWORD" = true
  /\ forall tr url, redis_connect E tr url = Done tt.

(** *** A scripted world, for examples

    The process environment holds every variable the module reads; the
    clock starts at 2023-11-14T22:13:20Z and advances by a millisecond per
    event; the cache and the vendor answer as the script says, the same at
    every call; a token request is told from a request for a resource by
    the bearer token the latter carries.  The three functions of the
    runtime are stand-ins: the examples turn no number into a string and
    parse no JSON, and the body of a request only goes into its signature. *)
Definition sample_vars : gmap string string :=
  <["TUYA_CLIENT_ID" := "client-id"]>
    (<["TUYA_CLIENT_SECRET" := "client-secret"]>
       (<["REDIS_HOST" := "cache.local"]>
          (<["REDIS_PORT" := "6379"]>
             (<["REDIS_PASSWORD" := "p w"]> ∅)))).

Record Script : Type := {
  vars : gmap string string;
  on_connect : Reply unit;
  on_get : Reply (option string);
  on_set : Reply unit;
  on_del : Reply unit;
  on_quit : Reply unit;
  on_auth : HttpReply;
  on_api : HttpReply
}.

Definition scripted (s : Script) : Environment :=
  {| process_env := vars s;
     Date_now := fun tr => 1700000000000 + Z.of_nat (length tr);
     redis_connect := fun _ _ => on_connect s;
     redis_get := fun _ _ _ => on_get s;
     redis_set := fun _ _ _ _ _ => on_set s;
     redis_del := fun _ _ _ => on_del s;
     redis_quit := fun _ _ => on_quit s;
     http := fun _ req => if carries_token req then on_api s else on_auth s;
     Number_toString := fun _ => "NaN";
     JSON_stringify := fun _ => "{}";
     JSON_parse := fun _ => inr "Unexpected token" |}.

(** A token response with the given lifetime. *)
Definition token_response (expire_time : float) : HttpReply :=
  Response 200
    (JObj [("success", JBool true);
           ("result", JObj [("access_token", JStr "fresh-token");
                            ("expire_time", JNum expire_time)])]).

(** The envelope that says the token is no longer valid. *)
Definition sentinel_response : HttpReply :=
  Response 200
    (JObj [("success", JBool false); ("code", JNum 1010); ("msg", JStr "token invalid")]).

(** A status envelope with one reading. *)
Definition status_response (first : JsVal) : HttpReply :=
  Response 200 (JObj [("success", JBool true); ("result", JArr [first])]).

(** A healthy world: the cache holds a token and the vendor answers. *)
Definition healthy : Script :=
  {| vars := sample_vars;
     on_connect := Done tt;
     on_get := Done (Some "cached-token");
     on_set := Done tt;
     on_del := Done tt;
     on_quit := Done tt;
     on_auth := token_response 7200;
     on_api := status_response (JObj [("code", JStr "va_temperature"); ("value", JStr "235")]) |}.

(** A world whose cache is down: nothing connects, reads or writes. *)
Definition cache_is_down : Script :=
  {| vars := sample_vars;
     on_connect := Failed "connect ECONNREFUSED";
     on_get := Failed "The client is closed";
     on_set := Failed "The client is closed";
     on_del := Failed "The client is closed";
     on_quit := Failed "The client is closed";
     on_auth := token_response 7200;
     on_api := status_response (JObj [("code", JStr "va_temperature"); ("value", JStr "235")]) |}.

(** A world where the vendor refuses every token it is shown. *)
Definition token_refused : Script :=
  {| vars := sample_vars;
     on_connect := Done tt;
     on_get := Done (Some "cached-token");
     on_set := Done tt;
     on_del := Done tt;
     on_quit := Done tt;
     on_auth := token_response 7200;
     on_api := sentinel_response |}.

(** A world with an empty cache, where the vendor grants a token that
    expires in 30 seconds, half the safety margin. *)
Definition short_lived : Script :=
  {| vars := sample_vars;
     on_connect := Done tt;
     on_get := Done None;
     on_set := Done tt;
     on_del := Done tt;
     on_quit := Done tt;
     on_auth := token_response 30;
     on_api := status_response (JObj [("code", JStr "va_temperature"); ("value", JStr "235")]) |}.

(** A world where the cache holds a token and answers every read, but
    closing a connection fails. *)
Definition quit_fails : Script :=
  {| vars := sample_vars;
     on_connect := Done tt;
     on_get := Done (Some "cached-token");
     on_set := Done tt;
     on_del := Done tt;
     on_quit := Failed "Socket closed unexpectedly";
     on_auth := token_response 7200;
     on_api := status_response (JObj [("code", JStr "va_temperature"); ("value", JStr "235")]) |}.

(** A world where the device reports no value in its first reading. *)
Definition no_value : Script :=
  {| vars := sample_vars;
     on_connect := Done tt;
     on_get := Done (Some "cached-token");
     on_set := Done tt;
     on_del := Done tt;
     on_quit := Done tt;
     on_auth := token_response 7200;
     on_api := status_response (JObj [("code", JStr "va_temperature")]) |}.

(** A world where the vendor carries out every command. *)
Definition obedient : Script :=
  {| vars := sample_vars;
     on_connect := Done tt;
     on_get := Done (Some "cached-token");
     on_set := Done tt;
     on_del := Done tt;
     on_quit := Done tt;
     on_auth := token_response 7200;
     on_api := Response 200 (JObj [("success", JBool true); ("result", JBool true)]) |}.

(** A world where the client secret is absent from the process environment. *)
Definition no_secret : Script :=
  {| vars := delete "TUYA_CLIENT_SECRET" sample_vars;
     on_connect := Done tt;
     on_get := Done (Some "cached-token");
     on_set := Done tt;
     on_del := Done tt;
     on_quit := Done tt;
     on_auth := token_response 7200;
     on_api := sentinel_response |}.

(** Query parameters. *)
Definition status_query : gmap string string :=
  <["action" := "status"]> (<["id" := "d1"]> ∅).

Definition control_query (command : string) : gmap string string :=
  <["action" := "control"]> (<["id" := "d1"]> (<["command" := command]> ∅)).

(** *** More worlds *)

(** A world with an empty cache, where the vendor refuses to grant a token. *)
Definition vendor_denies : Script :=
  {| vars := sample_vars;
     on_connect := Done tt;
     on_get := Done None;
     on_set := Done tt;
     on_del := Done tt;
     on_quit := Done tt;
     on_auth := Response 200 (JObj [("success", JBool false); ("msg", JStr "sign invalid")]);
     on_api := sentinel_response |}.

(** A world where the device reports its reading as a number. *)
Definition numeric_reading : Script :=
  {| vars := sample_vars;
     on_connect := Done tt;
     on_get := Done (Some "cached-token");
     on_set := Done tt;
     on_del := Done tt;
     on_quit := Done tt;
     on_auth := token_response 7200;
     on_api := status_response (JObj [("code", JStr "va_temperature"); ("value", JNum 235)]) |}.

(** A world where the endpoints are configured as well: an API key and a
    device. *)
Definition served : Script :=
  {| vars := <["API_KEY" := "k-1"]> (<["DEVICE_ID" := "d1"]> sample_vars);
     on_connect := Done tt;
     on_get := Done (Some "cached-token");
     on_set := Done tt;
     on_del := Done tt;
     on_quit := Done tt;
     on_auth := token_response 7200;
     on_api := status_response (JObj [("code", JStr "va_temperature"); ("value", JStr "235")]) |}.

Definition request_query : gmap string string :=
  <["action" := "request"]> (<["path" := "v1.0/devices/d1"]> (<["method" := "get"]> ∅)).

(** *** A cache that keeps what it is given

    What such a cache holds under [key] after [tr]: the value of the last
    write that succeeded, unless a delete that succeeded came after it.
    The expiry of the values is left out: the worlds below are those where
    no value expires between the calls looked at. *)
Fixpoint stored (key : string) (tr : Trace) : option string :=
  match tr with
  | [] => None
  | RedisSet _ k (JStr v) _ (Done _) :: rest =>
      if String.eqb k key then Some v else stored key rest
  | RedisDel _ k (Done _) :: rest =>
      if String.eqb k key then None else stored key rest
  | _ :: rest => stored key rest
  end.

(** The cache is reachable, carries out what it is asked, and answers a
    read with what it holds. *)
Definition cache_keeps (E : Environment) : Prop :=
  cache_reachable E
  /\ (forall tr c k, redis_get E tr c k = Done (stored k tr))
  /\ (forall tr c k v ex, redis_set E tr c k v ex = Done tt)
  /\ (forall tr c k, redis_del E tr c k = Done tt)
  /\ (forall tr c, redis_quit E tr c = Done tt).

(** The vendor grants the token [token], with a time to live to cache it
    with, whenever it is asked for one. *)
Definition vendor_grants (E : Environment) (token : string) : Prop :=
  forall tr req, carries_token req = false ->
    exists status data,
      http E tr req = Response status data
      /\ grants_token status data = true
      /\ granted_token data = JStr token
      /\ js_gt (ttl_of data) 0 = true.

(** A world whose cache keeps what it is given, and whose vendor grants
    the token 'fresh-token' and accepts only that one: a request that
    carries another is answered with the sentinel. *)
Definition keeping : Environment :=
  {| process_env := sample_vars;
     Date_now := fun tr => 1700000000000 + Z.of_nat (length tr);
     redis_connect := fun _ _ => Done tt;
     redis_get := fun tr _ k => Done (stored k tr);
     redis_set := fun _ _ _ _ _ => Done tt;
     redis_del := fun _ _ _ => Done tt;
     redis_quit := fun _ _ => Done tt;
     http := fun _ req =>
       if carries_token req then
         match assoc "access_token" (req_headers req) with
         | JStr t =>
             if String.eqb t "fresh-token"
             then Response 200 (JObj [("success", JBool true); ("result", JBool true)])
             else sentinel_response
         | _ => sentinel_response
         end
       else token_response 7200;
     Number_toString := fun _ => "NaN";
     JSON_stringify := fun _ => "{}";
     JSON_parse := fun _ => inr "Unexpected token" |}.

(** A history after which the cache holds a token the vendor no longer
    accepts. *)
Definition stale_history : Trace :=
  [RedisSet 0%nat "tuya_token" (JStr "stale-token") (JNum 7140) (Done tt)].

(** ** Digests, digits and URLs *)

Definition is_hex_upper (c : ascii) : bool :=
  let n := N_of_ascii c in
  (((48 <=? n) && (n <=? 57)) || ((65 <=? n) && (n <=? 70)))%N.

Definition all_chars (p : ascii -> bool) (s : string) : bool :=
  forallb p (list_ascii_of_string s).

Definition is_byte (b : Z) : Prop := 0 <= b < 256.

Definition is_digit (c : ascii) : bool :=
  let n := N_of_ascii c in ((48 <=? n) && (n <=? 57))%N.

(** The decoding that the reader of a URL applies to the password in it:
    a percent sign and two hexadecimal digits stand for one byte. *)
Definition hex_value (c : ascii) : Z :=
  default 0 (digit_of 16 (Z.of_N (N_of_ascii c))).

Fixpoint percent_decode_chars (l : list ascii) : list ascii :=
  match l with
  | [] => []
  | c :: rest =>
      if Ascii.eqb c "%" then
        match rest with
        | h :: lo :: rest' =>
            ascii_of_N (Z.to_N (16 * hex_value h + hex_value lo)) :: percent_decode_chars rest'
        | _ => c :: percent_decode_chars rest
        end
      else c :: percent_decode_chars rest
  end.

Definition percent_decode (s : string) : string :=
  string_of_list_ascii (percent_decode_chars (list_ascii_of_string s)).

(** The characters [encodeURIComponent] lets through, and the percent sign. *)
Definition uri_safe (c : ascii) : bool :=
  uri_unreserved (Z.of_N (N_of_ascii c)) || Ascii.eqb c "%".

(** What [encodeURIComponent] makes of one byte. *)
Definition encode_byte (b : Z) : list ascii :=
  if uri_unreserved b then [ascii_of_N (Z.to_N b)]
  else "%"%char :: list_ascii_of_string (toUpperCase (hex_of_bytes [b])).

(** ** What a run leaves in the trace *)

(** The answers of the vendor that were no response at all. *)
Definition silences (evs : Trace) : list string :=
  flat_map (fun ev => match ev with
                      | Http _ (NoResponse m) => [m]
                      | _ => []
                      end) evs.

(** The tokens the vendor granted in [evs], in answer to requests for one. *)
Definition granted (evs : Trace) : list JsVal :=
  flat_map (fun ev => match ev with
                      | Http req (Response status data) =>
                          if negb (carries_token req) && grants_token status data
                          then [granted_token data] else []
                      | _ => []
                      end) evs.

(** Where a token comes from: the cache answered a read with it, or the
    vendor granted it. *)
Inductive token_source (evs : Trace) (tok : JsVal) : Prop :=
| from_cache t : In t (hits evs) -> tok = JStr t -> token_source evs tok
| from_vendor : In tok (granted evs) -> token_source evs tok.

(** [P req t older] for every request of [evs], where [t] is the reading of
    the clock made just before the request was sent and [older] the events
    before that; a request that no reading of the clock comes right before
    fails the test. *)
Fixpoint each_request (P : Request -> Z -> Trace -> Prop) (evs : Trace) : Prop :=
  match evs with
  | [] => True
  | Http req _ :: rest =>
      match rest with
      | Clock t :: older => P req t older
      | _ => False
      end /\ each_request P rest
  | _ :: rest => each_request P rest
  end.

(** The order of the calls on the connections: a read, a write or a delete
    is made on a connection the run has opened and has not called [quit]
    on; [quit] is called on a connection the run has opened. *)
Fixpoint in_order (evs : Trace) : Prop :=
  match evs with
  | [] => True
  | ev :: rest =>
      match ev with
      | RedisGet c _ _ | RedisSet c _ _ _ _ | RedisDel c _ _ =>
          In c (acquired rest) /\ quits c rest = 0%nat
      | RedisQuit c _ => In c (acquired rest)
      | _ => True
      end /\ in_order rest
  end.

(** The connections opened in [evs], which comes after [n] earlier events:
    their handles are new, [quit] is called on each once or twice, once when
    no call of [quit] fails, and on no other handle. *)
Definition handles_ok (n : nat) (evs : Trace) : Prop :=
  (forall c, In c (acquired evs) ->
     (n <= c < n + length evs)%nat
     /\ (1 <= quits c evs <= 2)%nat
     /\ (failed_quits evs = 0%nat -> quits c evs = 1%nat))
  /\ (forall c, ~ In c (acquired evs) -> quits c evs = 0%nat).

(** The resource requests among [evs]. *)
Definition resource_requests (evs : Trace) : list Request :=
  flat_map (fun ev => match ev with
                      | Http req _ => if carries_token req then [req] else []
                      | _ => []
                      end) evs.

Section Conformance.

Variable E : Environment.

(** [req.headers[name]] *)
Definition header (req : Request) (name : string) : JsVal :=
  assoc name (req_headers req).

(** The URL lib/redis.js connects to. *)
Definition redis_url : string :=
  "redis://default:" +:+ encodeURIComponent (env E "REDIS_PASSWORD") +:+ "@"
  +:+ env E "REDIS_HOST" +:+ ":" +:+ env E "REDIS_PORT".

Definition token_path : string := "/v1.0/token?grant_type=1".

(** The headers of [req] hold the client id, the reading [t] of the clock
    and the signature of [method], [path], [body] and [token] at [t]. *)
Definition signed_with (req : Request) (method path body : string) (token : JsVal)
    (t : Z) : Prop :=
  header req "client_id" = JStr (env E "TUYA_CLIENT_ID")
  /\ header req "t" = JStr (dec_of_Z t)
  /\ header req "sign_method" = JStr "HMAC-SHA256"
  /\ header req "sign"
     = JStr (toUpperCase
               (hmac_sha256_hex (env E "TUYA_CLIENT_SECRET")
                  (env E "TUYA_CLIENT_ID" +:+ ToString E token +:+ dec_of_Z t +:+
                   (method +:+ nl +:+ sha256_hex body +:+ nl +:+ nl +:+ path)))).

(** The request for a token. *)
Definition token_request_ok (req : Request) (t : Z) : Prop :=
  req_method req = "get" /\ req_url req = base_url +:+ token_path
  /\ req_data req = None /\ req_timeout req = 10000
  /\ signed_with req "GET" token_path "" (JStr "") t.

(** The request for a resource that [makeCustomRequest(method, path, data)]
    sends. *)
Definition resource_request_ok (method path : string) (data : JsVal) (req : Request)
    (t : Z) : Prop :=
  req_method req = toUpperCase method /\ req_url req = base_url +:+ path
  /\ req_data req = (if truthy data && includes ["POST"; "PUT"; "PATCH"] (toUpperCase method)
                     then Some data else None)
  /\ req_timeout req = 10000
  /\ header req "Content-Type" = JStr "application/json"
  /\ signed_with req (toUpperCase method) path
       (if truthy data then JSON_stringify E data else "")
       (header req "access_token") t.

(** A request of a run: for a token, or, within a call of
    [makeCustomRequest] with the arguments [call], for a resource, with a
    token that the cache or the vendor gave earlier in the run. *)
Definition request_ok (call : option (string * string * JsVal)) (req : Request)
    (t : Z) (older : Trace) : Prop :=
  if carries_token req then
    match call with
    | Some (method, path, data) =>
        resource_request_ok method path data req t
        /\ token_source older (header req "access_token")
    | None => False
    end
  else token_request_ok req t.

(** What the module asks of the cache: a connection to the configured
    server, and reads, writes and deletes of the one key; a write has a
    positive time to live. *)
Definition cache_ok (ev : Event) : Prop :=
  match ev with
  | RedisConnect url _ => url = redis_url
  | RedisGet _ k _ | RedisDel _ k _ => k = redisKey
  | RedisSet _ k _ ex _ => k = redisKey /\ js_gt ex 0 = true
  | _ => True
  end.

Definition conforms (call : option (string * string * JsVal)) (n : nat) (evs : Trace) : Prop :=
  each_request (request_ok call) evs /\ Forall cache_ok evs
  /\ handles_ok n evs /\ in_order evs.

(** Why no token is had. *)
Inductive token_failure (evs : Trace) : JsError -> Prop :=
| no_credentials :
    ~ credentials_set E ->
    token_failure evs (Error "Missing Tuya API credentials")
| vendor_silent m :
    In m (silences evs) ->
    token_failure evs (AxiosError m None)
| vendor_error status data :
    In (status, data) (responses evs) -> default_validateStatus status = false ->
    token_failure evs
      (AxiosError ("Request failed with status code " +:+ dec_of_Z status)
                  (Some (status, data)))
| vendor_refuses status data :
    In (status, data) (responses evs) -> grants_token status data = false ->
    token_failure evs
      (Error ("Error getting token: " +:+
              ToString E (js_or (opt_field data "msg")
                                (JStr "Invalid response from Tuya API")))).

(** How a call of [makeCustomRequest] ends, [evs] being what it did: with
    the body of the vendor's last answer, or with an error of the request,
    of the envelope, or of the token. *)
Inductive request_outcome (evs : Trace) : Outcome JsVal -> Prop :=
| envelope_returned req status data evs' :
    evs = Http req (Response status data) :: evs' -> carries_token req = true ->
    (200 <=? status) && (status <? 500) = true ->
    ((400 <=? status) = false -> is_nullish data = false) ->
    request_outcome evs (Return data)
| request_unanswered req m evs' :
    evs = Http req (NoResponse m) :: evs' -> carries_token req = true ->
    request_outcome evs (Throw (AxiosError m None))
| request_refused req status data evs' :
    evs = Http req (Response status data) :: evs' -> carries_token req = true ->
    (200 <=? status) && (status <? 500) = false ->
    request_outcome evs
      (Throw (AxiosError ("Request failed with status code " +:+ dec_of_Z status)
                         (Some (status, data))))
| envelope_missing req status data evs' :
    evs = Http req (Response status data) :: evs' -> carries_token req = true ->
    (200 <=? status) && (status <? 400) = true -> is_nullish data = true ->
    request_outcome evs
      (Throw (TypeError ("Cannot read properties of " +:+ ToString E data
                         +:+ " (reading '" +:+ "success" +:+ "')")))
| token_unavailable e :
    token_failure evs e -> request_outcome evs (Throw e).

(** Why an action has no envelope to answer from: the request failed, or
    the vendor's answer had no body. *)
Inductive action_failure (evs : Trace) : JsError -> Prop :=
| request_failed e :
    request_outcome evs (Throw e) -> action_failure evs e
| no_envelope req status envelope evs' :
    evs = Http req (Response status envelope) :: evs' -> carries_token req = true ->
    (400 <=? status) && (status <? 500) = true -> is_nullish envelope = true ->
    action_failure evs
      (TypeError ("Cannot read properties of " +:+ ToString E envelope
                  +:+ " (reading '" +:+ "success" +:+ "')")).

End Conformance.

(** What the module answers when a request fails. *)
Definition internal_error (e : JsError) : JsVal :=
  JObj [("success", JBool false);
        ("error", JStr (error_message e));
        ("tuya_response", error_response_data e);
        ("message", JStr "Internal error processing Tuya request.")].

(** What the module answers with: a number, or an object with a message. *)
Definition is_number (v : JsVal) : bool :=
  match v with JNum _ => true | _ => false end.

Definition has_message (v : JsVal) : bool :=
  match field v "message" with JStr _ => true | _ => false end.

(** The request shows the configured API key. *)
Definition authorized (E : Environment) (apiKey : JsVal) : Prop :=
  exists key, apiKey = JStr key /\ key <> "" /\ process_env E !! "API_KEY" = Some key.

Definition unauthorized : Answer :=
  {| ans_status := 401;
     ans_body := JObj [("success", JBool false);
                       ("message", JStr "Unauthorized: Invalid or missing API key")] |}.


(** * Properties *)

(** ** The runtime functions on known values *)

Example sha256_empty :
  sha256_hex "" = "e3b0c44298fc1c149afbf4c8996fb92427ae41e4649b934ca495991b7852b855".
Proof. vm_compute. reflexivity. Qed.

Example sha256_abc :
  sha256_hex "abc" = "ba7816bf8f01cfea414140de5dae2223b00361a396177a9cb410ff61f20015ad".
Proof. vm_compute. reflexivity. Qed.

Example sha256_two_blocks :
  sha256_hex "abcdbcdecdefdefgefghfghighijhijkijkljklmklmnlmnomnopnopq"
  = "248d6a61d20638b8e5c026930c3e6039a33ce45964ff2167f6ecedd419db06c1".
Proof. vm_compute. reflexivity. Qed.

(** RFC 4231, test case 2. *)
Example hmac_rfc4231_2 :
  hmac_sha256_hex "Jefe" "what do ya want for nothing?"
  = "5bdcc146bf60754e6a042426089575c75a003f089d2739839dec58b964ec3843".
Proof. vm_compute. reflexivity. Qed.

Example parseFloat_235 : parseFloat (JStr "235") = 235%float.
Proof. vm_compute. reflexivity. Qed.

Example parseFloat_prefix : parseFloat (JStr "  -4.35e2 C") = (-435)%float.
Proof. vm_compute. reflexivity. Qed.

Example parseFloat_no_number : is_nan (parseFloat (JStr "warm")) = true.
Proof. vm_compute. reflexivity. Qed.

Example ToNumber_examples :
  map ToNumber [JStr " 12 "; JStr ""; JStr "0x10"; JNull; JArr [JStr "72"]]
  = [12; 0; 16; 0; 72]%float
  /\ forallb is_nan (map ToNumber [JStr "12px"; JUndefined; JObj []; JArr [JNum 1; JNum 2]])
     = true.
Proof. split; vm_compute; reflexivity. Qed.

Example toISOString_examples :
  toISOString 0 = "1970-01-01T00:00:00.000Z"
  /\ toISOString 1700000000000 = "2023-11-14T22:13:20.000Z"
  /\ toISOString 1709251199999 = "2024-02-29T23:59:59.999Z".
Proof. repeat split; vm_compute; reflexivity. Qed.

Example reconnectStrategy_examples :
  map reconnectStrategy [1; 3; 4]
  = [inr 50; inr 150; inl (Error "Redis reconnect failed")].
Proof. reflexivity. Qed.

(** ** What each call to the outside can do *)

Section Calls.

Variable E : Environment.

Inductive getRedisClient_spec (tr : Trace) : Outcome Conn * Trace -> Prop :=
| connect_unconfigured :
    env_set E "REDIS_HOST" && env_set E "REDIS_PORT" && env_set E "REDIS_PASSWORD" = false ->
    getRedisClient_spec tr
      (Throw (RedisError "Redis environment variables are not defined"), tr)
| connect_failed url m :
    redis_connect E tr url = Failed m ->
    getRedisClient_spec tr (Throw (RedisError m), RedisConnect url (Failed m) :: tr)
| connect_done url :
    env_set E "REDIS_HOST" = true -> env_set E "REDIS_PORT" = true ->
    env_set E "REDIS_PASSWORD" = true ->
    redis_connect E tr url = Done tt ->
    getRedisClient_spec tr (Return (length tr), RedisConnect url (Done (length tr)) :: tr).

Lemma getRedisClientP tr : getRedisClient_spec tr (getRedisClient E tr).
Proof.
  unfold getRedisClient.
  destruct (env_set E "REDIS_HOST") eqn:Hh;
    [|apply connect_unconfigured; now rewrite Hh].
  destruct (env_set E "REDIS_PORT") eqn:Hp;
    [|apply connect_unconfigured; now rewrite Hh, Hp].
  destruct (env_set E "REDIS_PASSWORD") eqn:Hw;
    [|apply connect_unconfigured; now rewrite Hh, Hp, Hw].
  cbv beta iota zeta delta [negb orb try_catch client_connect throw].
  match goal with |- context [redis_connect E tr ?u] =>
    destruct (redis_connect E tr u) as [m|[]] eqn:Hc end.
  - now apply connect_failed.
  - now apply connect_done.
Qed.

Inductive client_get_spec (c : Conn) (k : string) (tr : Trace) :
  Outcome (option string) * Trace -> Prop :=
| get_failed m :
    redis_get E tr c k = Failed m ->
    client_get_spec c k tr (Throw (RedisError m), RedisGet c k (Failed m) :: tr)
| get_done v :
    redis_get E tr c k = Done v ->
    client_get_spec c k tr (Return v, RedisGet c k (Done v) :: tr).

Lemma client_getP c k tr : client_get_spec c k tr (client_get E c k tr).
Proof.
  unfold client_get. destruct (redis_get E tr c k) eqn:H; now constructor.
Qed.

Inductive client_set_spec (c : Conn) (k : string) (v ex : JsVal) (tr : Trace) :
  Outcome unit * Trace -> Prop :=
| set_failed m :
    redis_set E tr c k v ex = Failed m ->
    client_set_spec c k v ex tr (Throw (RedisError m), RedisSet c k v ex (Failed m) :: tr)
| set_done :
    redis_set E tr c k v ex = Done tt ->
    client_set_spec c k v ex tr (Return tt, RedisSet c k v ex (Done tt) :: tr).

Lemma client_setP c k v ex tr : client_set_spec c k v ex tr (client_set E c k v ex tr).
Proof.
  unfold client_set. destruct (redis_set E tr c k v ex) as [|[]] eqn:H; now constructor.
Qed.

Inductive client_del_spec (c : Conn) (k : string) (tr : Trace) :
  Outcome unit * Trace -> Prop :=
| del_failed m :
    client_del_spec c k tr (Throw (RedisError m), RedisDel c k (Failed m) :: tr)
| del_done :
    client_del_spec c k tr (Return tt, RedisDel c k (Done tt) :: tr).

Lemma client_delP c k tr : client_del_spec c k tr (client_del E c k tr).
Proof.
  unfold client_del. destruct (redis_del E tr c k) as [|[]]; constructor.
Qed.

Inductive client_quit_spec (c : Conn) (tr : Trace) : Outcome unit * Trace -> Prop :=
| quit_failed m :
    redis_quit E tr c = Failed m ->
    client_quit_spec c tr (Throw (RedisError m), RedisQuit c (Failed m) :: tr)
| quit_done :
    redis_quit E tr c = Done tt ->
    client_quit_spec c tr (Return tt, RedisQuit c (Done tt) :: tr).

Lemma client_quitP c tr : client_quit_spec c tr (client_quit E c tr).
Proof.
  unfold client_quit. destruct (redis_quit E tr c) as [|[]] eqn:H; now constructor.
Qed.

Inductive axios_spec (valid : Z -> bool) (req : Request) (tr : Trace) :
  Outcome (Z * JsVal) * Trace -> Prop :=
| axios_no_response m :
    http E tr req = NoResponse m ->
    axios_spec valid req tr (Throw (AxiosError m None), Http req (NoResponse m) :: tr)
| axios_refused status data :
    http E tr req = Response status data -> valid status = false ->
    axios_spec valid req tr
      (Throw (AxiosError ("Request failed with status code " +:+ dec_of_Z status)
                         (Some (status, data))),
       Http req (Response status data) :: tr)
| axios_resolved status data :
    http E tr req = Response status data -> valid status = true ->
    axios_spec valid req tr (Return (status, data), Http req (Response status data) :: tr).

Lemma axiosP valid req tr : axios_spec valid req tr (axios E valid req tr).
Proof.
  unfold axios. destruct (http E tr req) as [m|status data] eqn:H.
  - now constructor.
  - destruct (valid status) eqn:Hv; now constructor.
Qed.

Inductive generateSign_spec (method path body : string) (token : JsVal) (tr : Trace) :
  Outcome Signature * Trace -> Prop :=
| sign_unconfigured :
    ~ credentials_set E ->
    generateSign_spec method path body token tr
      (Throw (Error "Missing Tuya API credentials"), tr)
| sign_done :
    credentials_set E ->
    generateSign_spec method path body token tr
      (Return (signature_of E method path body token (Date_now E tr)),
       Clock (Date_now E tr) :: tr).

Lemma generateSignP method path body token tr :
  generateSign_spec method path body token tr (generateSign E method path body token tr).
Proof.
  unfold generateSign, credentials_set.
  destruct (env_set E "TUYA_CLIENT_ID") eqn:Hi;
    [destruct (env_set E "TUYA_CLIENT_SECRET") eqn:Hs|].
  - apply sign_done. now split.
  - apply sign_unconfigured. intros [_ H]. congruence.
  - apply sign_unconfigured. intros [H _]. congruence.
Qed.

End Calls.

(** ** Running a function along every path *)

Ltac unfold_js :=
  cbv beta iota zeta delta
    [getAccessToken with_local try_catch bind lift assign read_local ignore_errors
     try_finally ret throw out_of_fuel get_field fst snd orb negb andb].

Ltac red_js := cbv beta iota zeta delta [fst snd orb negb andb].

Ltac split_atom :=
  match goal with
  | |- context [getRedisClient ?E ?t] => destruct (getRedisClientP E t)
  | |- context [client_get ?E ?c ?k ?t] => destruct (client_getP E c k t)
  | |- context [client_set ?E ?c ?k ?v ?x ?t] => destruct (client_setP E c k v x t)
  | |- context [client_del ?E ?c ?k ?t] => destruct (client_delP E c k t)
  | |- context [client_quit ?E ?c ?t] => destruct (client_quitP E c t)
  | |- context [axios ?E ?v ?r ?t] => destruct (axiosP E v r t)
  | |- context [generateSign ?E ?m ?p ?b ?k ?t] => destruct (generateSignP E m p b k t)
  | |- context [match cached ?x with _ => _ end] => destruct (cached x) eqn:?
  | |- context [if truthy ?v then _ else _] => destruct (truthy v) eqn:?
  | |- context [if js_gt ?v ?n then _ else _] => destruct (js_gt v n) eqn:?
  | |- context [if is_nullish ?v then _ else _] => destruct (is_nullish v) eqn:?
  end.

Ltac split_paths := repeat (split_atom; red_js).

(** Run [getAccessToken] along every path, the goal kept behind a name on
    the way. *)
Ltac run_getAccessToken :=
  lazymatch goal with
  | |- context [getAccessToken ?E ?tr] =>
      pattern (getAccessToken E tr);
      lazymatch goal with
      | |- ?Q _ =>
          let post := fresh "post" in
          set (post := Q); unfold_js; split_paths; subst post; cbv beta
      end
  end.

(** The events of [tr'] that came after [tr]. *)
Ltac prefix_of tr' tr :=
  lazymatch tr' with
  | tr => constr:(@nil Event)
  | ?a ++ tr => constr:(a)
  | ?e :: ?l => let p := prefix_of l tr in constr:(e :: p)
  | ?a ++ ?l => let p := prefix_of l tr in constr:(a ++ p)
  end.

Ltac trace_eq := cbn [app]; repeat rewrite <- app_assoc; cbn [app]; reflexivity.

Ltac give_events tr :=
  lazymatch goal with
  | |- exists evs, ?tr' = evs ++ tr /\ _ =>
      let p := prefix_of tr' tr in exists p; split; [trace_eq|]
  end.

Lemma count_app p (a b : Trace) : count p (a ++ b) = (count p a + count p b)%nat.
Proof. unfold count. now rewrite List.filter_app, length_app. Qed.

Lemma count_cons p (e : Event) (l : Trace) :
  count p (e :: l) = ((if p e then 1 else 0) + count p l)%nat.
Proof. unfold count. cbn [List.filter]. now destruct (p e). Qed.

Lemma count_nil p : count p [] = 0%nat.
Proof. reflexivity. Qed.

(** A [catch] block that only throws again changes nothing. *)
Lemma rethrow_id {A S} (x : Outcome A * S) :
  (let (o, s') := x in
   match o with
   | Return a => (Return a, s')
   | Throw e => (Throw e, s')
   | OutOfFuel => (OutOfFuel, s')
   end) = x.
Proof. now destruct x as [[a|e|] s]. Qed.

(** Counting over a trace whose events are known up to what they carry. *)
Ltac count_events :=
  unfold api_calls, auth_calls, cache_writes, cache_deletes, quits in *;
  repeat first [rewrite count_cons | rewrite count_app | rewrite count_nil];
  repeat match goal with
         | |- context [if ?b then 1%nat else 0%nat] =>
             let v := eval lazy in b in change b with v; cbv iota
         end.

Section TokenProvider.

Variable E : Environment.

(** What a caller can rely on, whatever the cache and the vendor do: the
    call ends, it makes no request for a resource and deletes nothing, and
    it returns a token if the credentials are set and the vendor grants one. *)
Inductive getAccessToken_spec (tr : Trace) : Outcome JsVal * Trace -> Prop :=
| token_returned tok evs :
    api_calls evs = 0%nat -> cache_deletes evs = 0%nat ->
    getAccessToken_spec tr (Return tok, evs ++ tr)
| token_thrown e evs :
    api_calls evs = 0%nat -> cache_deletes evs = 0%nat ->
    (forall m, e <> RedisError m) ->
    ~ (credentials_set E /\ auth_grants E) ->
    getAccessToken_spec tr (Throw e, evs ++ tr).

Lemma grants_token_inv status data :
  grants_token status data = true ->
  default_validateStatus status = true
  /\ truthy (opt_field data "success") = true
  /\ truthy (opt_field (field data "result") "access_token") = true.
Proof.
  unfold grants_token. intros H.
  apply andb_prop in H as [H H3]. apply andb_prop in H as [H1 H2]. auto.
Qed.

(** The vendor grants a token, yet the path at hand got none. *)
Ltac refute_with Hauth :=
  match goal with
  | H : http _ ?t ?req = _ |- _ =>
      let Hresp := fresh "Hresp" in
      let Hgrant := fresh "Hgrant" in
      destruct (Hauth t req eq_refl) as (? & ? & Hresp & Hgrant);
      rewrite Hresp in H; inversion H; subst;
      apply grants_token_inv in Hgrant as (? & ? & ?); congruence
  end.

Ltac refute_grant :=
  let Hc := fresh "Hc" in
  let Ha := fresh "Ha" in
  intros [Hc Ha]; try contradiction; refute_with Ha.

Lemma getAccessTokenP tr : getAccessToken_spec tr (getAccessToken E tr).
Proof.
  run_getAccessToken.
  all: lazymatch goal with
       | |- getAccessToken_spec _ (?r, ?tr') =>
           let p := prefix_of tr' tr in change (getAccessToken_spec tr (r, p ++ tr))
       end.
  all: first [ apply token_returned; reflexivity
             | apply token_thrown;
               [reflexivity | reflexivity | discriminate | refute_grant] ].
Qed.

Lemma grants_token_intro status data :
  default_validateStatus status = true ->
  truthy (opt_field data "success") = true ->
  truthy (opt_field (field data "result") "access_token") = true ->
  grants_token status data = true.
Proof. unfold grants_token. now intros -> -> ->. Qed.

Lemma no_redis_error_escapes tr m :
  fst (getAccessToken E tr) <> Throw (RedisError m).
Proof.
  destruct (getAccessTokenP tr) as [tok evs _ _|e evs _ _ He _]; cbn [fst].
  - discriminate.
  - intros [= ->]. now apply (He m).
Qed.

(** With the credentials set and a vendor that grants tokens, the call
    returns a token whatever the cache does. *)
Lemma getAccessToken_returns tr :
  credentials_set E -> auth_grants E ->
  exists tok, fst (getAccessToken E tr) = Return tok.
Proof.
  intros Hcred Hauth. destruct (getAccessTokenP tr) as [tok evs _ _|e evs _ _ _ Hno].
  - now exists tok.
  - exfalso. apply Hno. now split.
Qed.

(** With the cache down, the token is the one the vendor just granted. *)
Lemma getAccessToken_cache_down tr :
  credentials_set E -> auth_grants E -> cache_down E ->
  exists evs req status data,
    getAccessToken E tr = (Return (granted_token data), evs ++ tr)
    /\ In (Http req (Response status data)) evs
    /\ carries_token req = false
    /\ grants_token status data = true
    /\ auth_calls evs = 1%nat /\ cache_writes evs = 0%nat.
Proof.
  intros Hcred Hauth (Hconnect & _ & _).
  run_getAccessToken.
  all: try match goal with
           | H : redis_connect _ ?t ?u = Done _ |- _ =>
               destruct (Hconnect t u) as [? ?]; congruence
           end.
  all: try contradiction.
  all: try solve [exfalso; refute_with Hauth].
  all: lazymatch goal with
       | |- exists evs req status data, (_, ?tr') = _ /\ _ =>
           lazymatch tr' with
           | context [Http ?r (Response ?s ?d)] =>
               let p := prefix_of tr' tr in exists p, r, s, d
           end
       end.
  all: split; [reflexivity|].
  all: split; [cbn [In]; auto 10|].
  all: split; [reflexivity|].
  all: split; [now apply grants_token_intro|].
  all: split; count_events; reflexivity.
Qed.

(** What a run writes to the cache, and with which time to live. *)
Lemma getAccessToken_writes tr :
  exists r evs,
    getAccessToken E tr = (r, evs ++ tr)
    /\ (forall k v ex, In (k, v, ex) (writes evs) -> js_gt ex 0 = true)
    /\ (forall status data,
          In (status, data) (responses evs) ->
          grants_token status data = true ->
          r = Return (granted_token data)
          /\ (forall k v ex,
                In (k, v, ex) (writes evs) ->
                k = redisKey /\ v = granted_token data /\ ex = ttl_of data)
          /\ (js_gt (ttl_of data) 0 = false -> writes evs = [])
          /\ (js_gt (ttl_of data) 0 = true -> cache_reachable E ->
              writes evs = [(redisKey, granted_token data, ttl_of data)])).
Proof.
  run_getAccessToken.
  all: lazymatch goal with
       | |- exists r evs, (?r', ?tr') = _ /\ _ =>
           let p := prefix_of tr' tr in exists r', p; split; [reflexivity|]
       end.
  all: cbn [writes responses flat_map app In].
  all: split; [intros ? ? ? Hin; try contradiction;
               destruct Hin as [Hin|[]]; injection Hin as _ _ <-; assumption|].
  all: intros status' data' Hin; try contradiction.
  all: destruct Hin as [Hin|[]]; injection Hin as <- <-; intros Hgrant.
  all: apply grants_token_inv in Hgrant as (Hv & Hs & Ht); try congruence.
  all: unfold ttl_of, granted_token.
  all: repeat match goal with H : js_gt _ _ = _ |- _ => rewrite H end.
  all: split; [reflexivity|].
  all: split; [intros ? ? ? Hin; try contradiction;
               destruct Hin as [Hin|[]]; injection Hin as <- <- <-; auto|].
  all: split; [intros Hneg; first [reflexivity | discriminate Hneg]|].
  all: intros Hpos (Hh & Hp & Hw & Hconn).
  all: try reflexivity.
  all: try discriminate Hpos.
  all: try (rewrite Hh, Hp, Hw in *; discriminate).
  all: match goal with
       | H : redis_connect _ ?t ?u = Failed _ |- _ =>
           rewrite (Hconn t u) in H; discriminate H
       end.
Qed.

Lemma cached_Some v t : cached v = Some t -> v = Some t /\ t <> "".
Proof.
  destruct v as [s|]; [|discriminate]. cbn [cached].
  destruct (String.eqb_spec s ""); [discriminate|]. intros [= <-]. now split.
Qed.

Ltac eval_counts :=
  cbn [api_calls auth_calls cache_writes cache_deletes failed_quits count List.filter
       length is_api_call is_auth_call is_set is_del carries_token existsb req_headers
       fst negb orb String.eqb Ascii.eqb Bool.eqb hits flat_map app].

(** X1. How often the vendor is asked and the cache written: at most once
    each.  When the cache answers the read with a token and no call of
    [quit] fails, that token is returned and the vendor is not asked; when
    the cache gives no token and the credentials are set, the vendor is
    asked exactly once. *)
Lemma getAccessToken_vendor_calls tr :
  exists r evs,
    getAccessToken E tr = (r, evs ++ tr)
    /\ (auth_calls evs <= 1)%nat /\ (cache_writes evs <= 1)%nat
    /\ (forall t, In t (hits evs) -> failed_quits evs = 0%nat ->
          r = Return (JStr t) /\ auth_calls evs = 0%nat /\ cache_writes evs = 0%nat)
    /\ (hits evs = [] -> credentials_set E -> auth_calls evs = 1%nat).
Proof.
  run_getAccessToken.
  all: lazymatch goal with
       | |- exists r evs, (?r', ?tr') = _ /\ _ =>
           let p := prefix_of tr' tr in exists r', p; split; [reflexivity|]
       end.
  all: repeat match goal with H : http _ _ _ = _ |- _ => clear H end.
  all: eval_counts.
  all: repeat match goal with H : cached _ = _ |- _ => rewrite H end.
  all: cbn [app In].
  all: split; [lia|].
  all: split; [lia|].
  all: split.
  all: try (intros t Hin Hq; try contradiction; destruct Hin as [<-|[]];
            try discriminate Hq; repeat split; reflexivity).
  all: intros Hh Hc; try discriminate Hh; try contradiction; reflexivity.
Qed.

Ltac decide_handles :=
  repeat match goal with
         | |- context [Nat.eqb ?a ?b] =>
             destruct (Nat.eqb_spec a b); try lia
         end.

(** X2. How often [quit] is called on a connection the run acquires: at
    least once and at most twice, and exactly once unless the cache
    answered the read with a token and a call of [quit] failed. *)
Lemma getAccessToken_releases tr :
  exists r evs,
    getAccessToken E tr = (r, evs ++ tr)
    /\ forall c, In c (acquired evs) ->
         (1 <= quits c evs <= 2)%nat
         /\ (failed_quits evs = 0%nat -> quits c evs = 1%nat)
         /\ (hits evs = [] -> quits c evs = 1%nat).
Proof.
  run_getAccessToken.
  all: lazymatch goal with
       | |- exists r evs, (?r', ?tr') = _ /\ _ =>
           let p := prefix_of tr' tr in exists r', p; split; [reflexivity|]
       end.
  all: repeat match goal with H : http _ _ _ = _ |- _ => clear H end.
  all: cbn [acquired hits flat_map app length In].
  all: repeat match goal with H : cached _ = _ |- _ => rewrite H end.
  all: cbn [app].
  all: repeat match goal with H : _ |- _ => clear H end.
  all: intros c Hin; try contradiction.
  all: repeat (destruct Hin as [<-|Hin]; [|try contradiction]).
  all: cbn [quits failed_quits count List.filter length is_quit_of].
  all: decide_handles; cbn [length].
  all: repeat split; intros; first [lia | discriminate].
Qed.

End TokenProvider.

Section SignedRequestClient.

Variable E : Environment.

(** One attempt: the call made with [retry = false]. *)
Inductive attempt_spec (tr : Trace) : Outcome JsVal * Trace -> Prop :=
| attempt_ends r evs :
    r <> OutOfFuel ->
    (api_calls evs <= 1)%nat -> cache_deletes evs = 0%nat ->
    attempt_spec tr (r, evs ++ tr).

Ltac unfold_request :=
  cbn [makeCustomRequest];
  cbv beta iota zeta delta
    [with_local try_catch bind lift assign read_local ignore_errors
     try_finally ret throw out_of_fuel get_field fst snd orb negb andb].

Ltac split_request :=
  repeat (first
    [ match goal with
      | |- context [getAccessToken ?E ?t] => destruct (getAccessTokenP E t)
      | |- context [if strict_eq_num ?v ?n then _ else _] =>
          destruct (strict_eq_num v n) eqn:?
      | |- context [if (400 <=? ?s) then _ else _] => destruct (400 <=? s) eqn:?
      end
    | split_atom ]; red_js).

Lemma makeCustomRequest_attempt fuel method path data tr :
  attempt_spec tr (makeCustomRequest E (S fuel) method path data false tr).
Proof.
  unfold_request. split_request.
  all: lazymatch goal with
       | |- attempt_spec _ (?r, ?tr') =>
           let p := prefix_of tr' tr in
           replace tr' with (p ++ tr) by trace_eq
       end.
  all: apply attempt_ends; [discriminate | count_events; lia | count_events; lia].
Qed.

(** Any call: with [retry] it makes at most two requests and deletes the
    cached token at most once. *)
Inductive request_spec (retry : bool) (tr : Trace) : Outcome JsVal * Trace -> Prop :=
| request_ends r evs :
    r <> OutOfFuel ->
    (api_calls evs <= if retry then 2 else 1)%nat ->
    (cache_deletes evs <= if retry then 1 else 0)%nat ->
    request_spec retry tr (r, evs ++ tr).

Lemma makeCustomRequest_bounded fuel method path data retry tr :
  request_spec retry tr (makeCustomRequest E (S (S fuel)) method path data retry tr).
Proof.
  destruct retry.
  - remember (S fuel) as fuel1 eqn:Hfuel.
    unfold_request. split_request.
    all: try (rewrite Hfuel;
              match goal with
              | |- context [makeCustomRequest E (S ?f) ?m ?p ?d false ?t] =>
                  destruct (makeCustomRequest_attempt f m p d t) as [[?|?|] ? ? ? ?]
              end; red_js; try congruence).
    all: lazymatch goal with
         | |- request_spec _ _ (?r, ?tr') =>
             let p := prefix_of tr' tr in
             replace tr' with (p ++ tr) by trace_eq
         end.
    all: apply request_ends; [discriminate | count_events; lia ..].
  - destruct (makeCustomRequest_attempt (S fuel) method path data tr) as [r evs Hr Ha Hd].
    apply request_ends; [assumption | lia ..].
Qed.

(** The events of [tr'] that came after the last request. *)
Ltac since_request tr' :=
  lazymatch tr' with
  | Http _ _ :: _ => constr:(@nil Event)
  | ?e :: ?l => let p := since_request l in constr:(e :: p)
  end.

(** The call with [retry] is the call without, followed, when that returns
    an envelope with the sentinel code, by the deletion of the cached token
    and one more call without [retry]. *)
Lemma retry_is_second_attempt fuel fuel' method path data tr :
  match makeCustomRequest E (S fuel') method path data false tr with
  | (Return envelope, tr1) =>
      if strict_eq_num (opt_field envelope "code") 1010 then
        exists evs,
          makeCustomRequest E (S fuel) method path data true tr
          = makeCustomRequest E fuel method path data false (evs ++ tr1)
          /\ api_calls evs = 0%nat /\ auth_calls evs = 0%nat
          /\ (cache_deletes evs <= 1)%nat
          /\ (forall c, In c (acquired evs) -> quits c evs = 1%nat)
      else
        makeCustomRequest E (S fuel) method path data true tr = (Return envelope, tr1)
  | (r, tr1) => makeCustomRequest E (S fuel) method path data true tr = (r, tr1)
  end.
Proof.
  unfold_request. split_request.
  all: try reflexivity.
  all: repeat match goal with
              | H : strict_eq_num _ _ = _ |- _ => rewrite H
              end.
  all: try reflexivity.
  all: try discriminate.
  all: try match goal with
           | Hn : is_nullish ?d = true, Hs : strict_eq_num (opt_field ?d _) _ = true |- _ =>
               unfold opt_field in Hs; rewrite Hn in Hs; discriminate Hs
           end.
  all: rewrite rethrow_id.
  all: match goal with
       | |- exists evs, makeCustomRequest _ _ _ _ _ _ ?tr' = _ /\ _ =>
           let p := since_request tr' in
           exists p; split; [reflexivity|]
       end.
  all: split; [reflexivity|]. all: split; [reflexivity|].
  all: split; [count_events; lia|].
  all: cbn [acquired In]; intros c Hin; try contradiction.
  all: destruct Hin as [<-|[]].
  all: cbn [quits count List.filter is_quit_of length app].
  all: repeat match goal with
              | |- context [Nat.eqb ?a ?b] => destruct (Nat.eqb_spec a b); try lia
              end.
  all: reflexivity.
Qed.

(** A world where the credentials are set, the vendor grants tokens and
    answers every request for a resource with the sentinel. *)
Section Sentinel.

Hypothesis Hcred : credentials_set E.
Hypothesis Hauth : auth_grants E.
Hypothesis Hsent : always_sentinel E.

Lemma is_sentinel_inv status data :
  is_sentinel status data = true ->
  ((200 <=? status) && (status <? 500)) = true
  /\ strict_eq_num (opt_field data "code") 1010 = true
  /\ is_nullish data = false.
Proof.
  unfold is_sentinel, opt_field. intros H. apply andb_prop in H as [H1 H2].
  repeat split; [assumption .. |].
  destruct (is_nullish data); [discriminate | reflexivity].
Qed.

Ltac use_sentinel :=
  match goal with
  | H : http _ ?t ?req = _ |- _ =>
      let Hs := fresh "Hs" in
      destruct (Hsent t req eq_refl) as (? & ? & Hresp & Hs);
      rewrite Hresp in H; inversion H; subst; clear H;
      pose proof (is_sentinel_inv _ _ Hs) as (? & ? & ?);
      unfold andb in *
  end.

Ltac impossible :=
  first [ discriminate
        | congruence
        | exfalso; match goal with H : ~ _ |- _ => apply H; auto end ].

(** The second attempt returns what the vendor answered, sentinel or not. *)
Lemma sentinel_without_retry fuel method path data tr :
  exists evs req status data',
    makeCustomRequest E (S fuel) method path data false tr
    = (Return data', Http req (Response status data') :: evs ++ tr)
    /\ carries_token req = true /\ is_sentinel status data' = true
    /\ api_calls evs = 0%nat /\ cache_deletes evs = 0%nat.
Proof.
  unfold_request. split_request.
  all: try solve [exfalso; match goal with H : ~ _ |- _ => apply H; auto end].
  all: use_sentinel; try impossible.
  all: match goal with
       | |- exists evs req status data', (_, Http ?r (Response ?s ?d) :: ?tr') = _ /\ _ =>
           let p := prefix_of tr' tr in
           exists p, r, s, d; split; [f_equal; f_equal; trace_eq|]
       end.
  all: repeat split; try assumption; try reflexivity; count_events; lia.
Qed.

(** The first attempt deletes the cached token, as far as the cache lets
    it, and calls the function again, once, with [retry = false]. *)
Lemma sentinel_with_retry fuel method path data tr :
  exists evs,
    makeCustomRequest E (S fuel) method path data true tr
    = makeCustomRequest E fuel method path data false (evs ++ tr)
    /\ api_calls evs = 1%nat /\ (cache_deletes evs <= 1)%nat.
Proof.
  destruct (sentinel_without_retry 0 method path data tr)
    as (evs & req & status & envelope & Hrun & Hreq & Hs & Ha & Hd).
  pose proof (retry_is_second_attempt fuel 0 method path data tr) as Hretry.
  rewrite Hrun in Hretry.
  apply is_sentinel_inv in Hs as (_ & Hcode & _). rewrite Hcode in Hretry.
  destruct Hretry as (dels & Hrun' & Ha' & _ & Hd' & _).
  exists (dels ++ Http req (Response status envelope) :: evs). split.
  - rewrite Hrun'. f_equal. now rewrite <- app_assoc.
  - unfold api_calls, cache_deletes in *. rewrite !count_app, !count_cons.
    cbn [is_api_call is_del]. rewrite Hreq. lia.
Qed.

End Sentinel.

End SignedRequestClient.

(** ** The action router *)

Section ActionRouter.

Variable E : Environment.

Lemma not_credentials_set :
  ~ credentials_set E ->
  negb (env_set E "TUYA_CLIENT_ID") || negb (env_set E "TUYA_CLIENT_SECRET") = true.
Proof.
  unfold credentials_set. intros H.
  destruct (env_set E "TUYA_CLIENT_ID"); [|reflexivity].
  destruct (env_set E "TUYA_CLIENT_SECRET"); [|reflexivity].
  exfalso. apply H. now split.
Qed.

Lemma credentials_set_guard :
  credentials_set E ->
  negb (env_set E "TUYA_CLIENT_ID") || negb (env_set E "TUYA_CLIENT_SECRET") = false.
Proof. now intros [-> ->]. Qed.

(** A variable that is absent from the process environment is not set. *)
Lemma absent_not_set name : process_env E !! name = None -> env_set E name = false.
Proof. unfold env_set, env. now intros ->. Qed.

Lemma given_param queryParams name value :
  param queryParams name = value -> String.eqb value "" = false ->
  given queryParams name = true.
Proof. unfold given. now intros -> ->. Qed.

Lemma control_rejected fuel queryParams tr :
  param queryParams "action" = "control" -> given queryParams "id" = true ->
  toLowerCase (param queryParams "command") <> "on" ->
  toLowerCase (param queryParams "command") <> "off" ->
  exists v,
    tuyaModule E fuel queryParams tr = (Return v, tr)
    /\ field v "success" = JBool false
    /\ (credentials_set E -> given queryParams "command" = true -> v = invalid_command).
Proof.
  intros Ha Hid Hon Hoff. unfold tuyaModule.
  destruct (negb (env_set E "TUYA_CLIENT_ID") || negb (env_set E "TUYA_CLIENT_SECRET"))
    eqn:Hguard.
  - eexists. split; [reflexivity|]. split; [reflexivity|].
    intros Hc. rewrite (credentials_set_guard Hc) in Hguard. discriminate.
  - rewrite (given_param _ _ _ Ha eq_refl), Ha, Hid.
    apply String.eqb_neq in Hon, Hoff. rewrite Hon, Hoff.
    destruct (given queryParams "command") eqn:Hcmd.
    + eexists. split; [reflexivity|]. split; [reflexivity|]. reflexivity.
    + eexists. split; [reflexivity|]. split; [reflexivity|]. discriminate.
Qed.

Lemma status_action fuel queryParams tr envelope tr' :
  credentials_set E ->
  param queryParams "action" = "status" -> given queryParams "id" = true ->
  makeCustomRequest E fuel "GET"
    ("/v1.0/iot-03/devices/" +:+ param queryParams "id" +:+ "/status") JNull true tr
  = (Return envelope, tr') ->
  is_nullish envelope = false ->
  tuyaModule E fuel queryParams tr
  = (Return (if has_reading envelope
             then JNum (PrimFloat.div
                          (parseFloat (field (first_item (field envelope "result")) "value"))
                          10)
             else JObj [("success", JBool false);
                        ("message", JStr "Failed to parse device status data");
                        ("tuya_response", envelope)]),
     tr').
Proof.
  intros Hc Ha Hid Hrun Hnull. unfold tuyaModule.
  rewrite (credentials_set_guard Hc), (given_param _ _ _ Ha eq_refl), Ha, Hid.
  cbv beta iota zeta delta [String.eqb Ascii.eqb Bool.eqb andb try_catch bind get_field ret].
  rewrite Hrun, Hnull. now destruct (has_reading envelope).
Qed.

End ActionRouter.

(** ** Scripted worlds *)

Lemma scripted_credentials s :
  vars s !! "TUYA_CLIENT_ID" = Some "client-id" ->
  vars s !! "TUYA_CLIENT_SECRET" = Some "client-secret" ->
  credentials_set (scripted s).
Proof.
  intros Hi Hs. unfold credentials_set, env_set, env. cbn [process_env scripted].
  now rewrite Hi, Hs.
Qed.

Lemma scripted_auth_grants s status data :
  on_auth s = Response status data -> grants_token status data = true ->
  auth_grants (scripted s).
Proof.
  intros Ha Hg tr req Hreq. exists status, data.
  cbn [http scripted]. now rewrite Hreq.
Qed.

Lemma scripted_always_sentinel s status data :
  on_api s = Response status data -> is_sentinel status data = true ->
  always_sentinel (scripted s).
Proof.
  intros Ha Hg tr req Hreq. exists status, data.
  cbn [http scripted]. now rewrite Hreq.
Qed.

Lemma scripted_cache_down s m1 m2 m3 :
  on_connect s = Failed m1 -> on_get s = Failed m2 -> on_set s = Failed m3 ->
  cache_down (scripted s).
Proof.
  intros H1 H2 H3. repeat split; intros; cbn [redis_connect redis_get redis_set scripted];
    eauto.
Qed.

(** * The claims *)







(** C4. With the credentials set, [generateSign] returns the upper-case
    hexadecimal HMAC-SHA256, keyed by the client secret, of the client id,
    the token and the timestamp followed by the method, a line feed, the
    SHA-256 of the body in hexadecimal, two line feeds and the path; the
    timestamp it returns is the one in the signed string, the reading of
    the clock in decimal.  The result is a function of these inputs: two
    worlds with the same credentials and the same reading of the clock get
    the same signature.  An empty body hashes to the SHA-256 of the empty
    string. *)
Theorem generateSign_signature E method path body token tr :
  credentials_set E ->
  generateSign E method path body (JStr token) tr
  = (Return {| sign := toUpperCase
                         (hmac_sha256_hex (env E "TUYA_CLIENT_SECRET")
                            (env E "TUYA_CLIENT_ID" +:+ token +:+ dec_of_Z (Date_now E tr)
                             +:+ method +:+ nl +:+ sha256_hex body +:+ nl +:+ nl +:+ path));
               timestamp := dec_of_Z (Date_now E tr);
               clientId := env E "TUYA_CLIENT_ID" |},
     Clock (Date_now E tr) :: tr)
  /\ (forall E' tr',
        credentials_set E' ->
        env E' "TUYA_CLIENT_ID" = env E "TUYA_CLIENT_ID" ->
        env E' "TUYA_CLIENT_SECRET" = env E "TUYA_CLIENT_SECRET" ->
        Date_now E' tr' = Date_now E tr ->
        fst (generateSign E' method path body (JStr token) tr')
        = fst (generateSign E method path body (JStr token) tr))
  /\ sha256_hex "" = "e3b0c44298fc1c149afbf4c8996fb92427ae41e4649b934ca495991b7852b855".
Proof.
  intros [Hi Hs].
  assert (Hrun : forall E0 tr0,
             env_set E0 "TUYA_CLIENT_ID" = true -> env_set E0 "TUYA_CLIENT_SECRET" = true ->
             generateSign E0 method path body (JStr token) tr0
             = (Return (signature_of E0 method path body (JStr token) (Date_now E0 tr0)),
                Clock (Date_now E0 tr0) :: tr0)).
  { intros E0 tr0 H1 H2. unfold generateSign. now rewrite H1, H2. }
  split; [|split].
  - now rewrite Hrun.
  - intros E' tr' [Hi' Hs'] Hid Hsec Hnow.
    rewrite !Hrun by assumption. cbn [fst]. unfold signature_of.
    now rewrite Hid, Hsec, Hnow.
  - exact sha256_empty.
Qed.

Lemma generateSign_signature_witness :
  generateSign (scripted healthy) "GET" "/v1.0/token?grant_type=1" "" (JStr "") []
  = (Return {| sign := "4ADC484D15B73137A7740F01BEFB5604C3F7BFC341694E878B2ED04617E08394";
               timestamp := "1700000000000";
               clientId := "client-id" |},
     [Clock 1700000000000]).
Proof.
  destruct (generateSign_signature (scripted healthy) "GET" "/v1.0/token?grant_type=1"
              "" "" []) as [H _].
  - apply scripted_credentials; reflexivity.
  - rewrite H. vm_compute. reflexivity.
Defined.



(** C6, at the failing input: the cache answers the read with a token and
    the call to [quit] that follows fails.  The connection the call opened
    has [quit] called on it twice. *)
Theorem getAccessToken_quits_twice_when_quit_fails :
  exists evs,
    snd (getAccessToken (scripted quit_fails) []) = evs
    /\ In 0%nat (acquired evs)
    /\ quits 0%nat evs = 2%nat.
Proof.
  eexists. split; [reflexivity|]. split; vm_compute; auto.
Qed.

(** C7 (as amended). For the control action with a device id, a command
    that is neither 'on' nor 'off' once put in lower case makes the module
    return a failure object and call nothing: no token, no signature, no
    request.  Whenever the module calls anything, the command in lower case
    is 'on' or 'off'. *)
Theorem control_rejects_other_commands E fuel queryParams tr :
  param queryParams "action" = "control" -> given queryParams "id" = true ->
  (toLowerCase (param queryParams "command") <> "on" ->
   toLowerCase (param queryParams "command") <> "off" ->
   exists v,
     tuyaModule E fuel queryParams tr = (Return v, tr)
     /\ field v "success" = JBool false
     /\ (credentials_set E -> given queryParams "command" = true -> v = invalid_command))
  /\ (snd (tuyaModule E fuel queryParams tr) <> tr ->
      toLowerCase (param queryParams "command") = "on"
      \/ toLowerCase (param queryParams "command") = "off").
Proof.
  intros Ha Hid. split.
  - now apply control_rejected.
  - intros Hcalls.
    destruct (String.eqb_spec (toLowerCase (param queryParams "command")) "on") as [|Hon];
      [now left|].
    destruct (String.eqb_spec (toLowerCase (param queryParams "command")) "off") as [|Hoff];
      [now right|].
    destruct (control_rejected E fuel queryParams tr Ha Hid Hon Hoff) as (v & Hrun & _).
    rewrite Hrun in Hcalls. now contradiction Hcalls.
Qed.

Lemma control_rejects_other_commands_witness :
  tuyaModule (scripted obedient) 2 (control_query "up") [] = (Return invalid_command, []).
Proof.
  destruct (control_rejects_other_commands (scripted obedient) 2 (control_query "up") [])
    as [H _]; [reflexivity | reflexivity |].
  destruct H as (v & Hrun & _ & Hv).
  - vm_compute. discriminate.
  - vm_compute. discriminate.
  - rewrite Hrun, Hv; [reflexivity | apply scripted_credentials; reflexivity | reflexivity].
Defined.

(** C7, against the claim as it was stated: the command 'ON' is neither
    'on' nor 'off', and the module posts it to the commands path. *)
Lemma control_accepts_uppercase_command :
  param (control_query "ON") "command" <> "on"
  /\ param (control_query "ON") "command" <> "off"
  /\ exists v req r evs,
       tuyaModule (scripted obedient) 2 (control_query "ON") [] = (Return v, Http req r :: evs)
       /\ req_method req = "POST"
       /\ req_url req = "https://openapi.tuyaeu.com/v1.0/devices/d1/commands"
       /\ req_data req = Some (JObj [("commands",
                                      JArr [JObj [("code", JStr "switch_1");
                                                  ("value", JBool true)]])])
       /\ field v "success" = JBool true.
Proof.
  split; [vm_compute; discriminate|]. split; [vm_compute; discriminate|].
  eexists _, _, _, _. split; [vm_compute; reflexivity|].
  repeat split; vm_compute; reflexivity.
Qed.

(** C8. When a vendor credential is not set (absent from the process
    environment, or empty), every call of the module returns the same
    failure object and calls nothing. *)
Theorem missing_credentials_response E fuel queryParams tr :
  ~ credentials_set E ->
  tuyaModule E fuel queryParams tr
  = (Return (JObj [("success", JBool false);
                   ("message", JStr "Server error: Missing Tuya credentials.")]),
     tr).
Proof.
  intros H. unfold tuyaModule. now rewrite (not_credentials_set E H).
Qed.

Lemma missing_credentials_response_witness :
  process_env (scripted no_secret) !! "TUYA_CLIENT_SECRET" = None
  /\ tuyaModule (scripted no_secret) 2 status_query []
     = (Return (JObj [("success", JBool false);
                      ("message", JStr "Server error: Missing Tuya credentials.")]),
        []).
Proof.
  assert (Habsent : process_env (scripted no_secret) !! "TUYA_CLIENT_SECRET" = None)
    by reflexivity.
  split; [exact Habsent|].
  apply missing_credentials_response.
  intros [_ Hs]. rewrite (absent_not_set _ _ Habsent) in Hs. discriminate.
Defined.

(** C9, at the failing input: the cache answers the read with a token and
    the call to [quit] that follows fails.  The call asks the vendor for a
    token all the same and returns the vendor's, not the cached one. *)
Theorem getAccessToken_asks_vendor_despite_cache_hit :
  exists evs,
    getAccessToken (scripted quit_fails) [] = (Return (JStr "fresh-token"), evs)
    /\ In (RedisGet 0%nat redisKey (Done (Some "cached-token"))) evs
    /\ auth_calls evs = 1%nat.
Proof.
  eexists. split; [vm_compute; reflexivity|]. split; [cbn [In]; auto 20|].
  vm_compute. reflexivity.
Qed.

(** C10. With the credentials set, a call without an action (absent or
    empty) is the test action: the module returns the acknowledgement, with
    the time of the call, and calls neither the network nor the cache. *)
Theorem absent_action_is_test E fuel queryParams tr :
  credentials_set E ->
  queryParams !! "action" = None \/ queryParams !! "action" = Some "" ->
  exists evs,
    tuyaModule E fuel queryParams tr
    = (Return (JObj [("success", JBool true);
                     ("message", JStr "Tuya module working");
                     ("timestamp", JStr (toISOString (Date_now E tr)))]),
       evs ++ tr)
    /\ no_outside_call evs.
Proof.
  intros Hc Ha. exists [Clock (Date_now E tr)]. split.
  - assert (Hg : given queryParams "action" = false).
    { unfold given, param. now destruct Ha as [-> | ->]. }
    unfold tuyaModule. now rewrite (credentials_set_guard E Hc), Hg.
  - intros ev [<-|[]]. now split.
Qed.

Lemma absent_action_is_test_witness :
  exists evs,
    tuyaModule (scripted healthy) 2 ∅ []
    = (Return (JObj [("success", JBool true);
                     ("message", JStr "Tuya module working");
                     ("timestamp", JStr "2023-11-14T22:13:20.000Z")]),
       evs ++ [])
    /\ no_outside_call evs.
Proof.
  destruct (absent_action_is_test (scripted healthy) 2 ∅ []) as (evs & Hrun & Hno).
  - apply scripted_credentials; reflexivity.
  - now left.
  - exists evs. split; [|exact Hno]. rewrite Hrun. reflexivity.
Defined.
(** * Further properties *)

(** ** The digests in hexadecimal *)

Lemma nibble_cases d : 0 <= d < 16 ->
  In d [0; 1; 2; 3; 4; 5; 6; 7; 8; 9; 10; 11; 12; 13; 14; 15].
Proof. intros H. cbn [In]. lia. Qed.

Lemma hex_digit_upper d :
  0 <= d < 16 -> is_hex_upper (upper_ascii (hex_digit d)) = true.
Proof.
  intros H. apply nibble_cases in H. cbn [In] in H.
  repeat (destruct H as [<-|H]; [reflexivity|]). contradiction.
Qed.

Lemma high_nibble b : is_byte b -> 0 <= Z.shiftr b 4 < 16.
Proof.
  intros [H0 H1]. rewrite Z.shiftr_div_pow2 by lia. change (2 ^ 4) with 16.
  split; [apply Z.div_pos; lia | apply Z.div_lt_upper_bound; lia].
Qed.

Lemma low_nibble b : 0 <= Z.land b 15 < 16.
Proof.
  change 15 with (Z.ones 4). rewrite Z.land_ones by lia. change (2 ^ 4) with 16.
  apply Z.mod_pos_bound. lia.
Qed.

Lemma list_ascii_of_string_of_list l :
  list_ascii_of_string (string_of_list_ascii l) = l.
Proof. apply list_ascii_of_string_of_list_ascii. Qed.

Lemma toUpperCase_chars s :
  list_ascii_of_string (toUpperCase s) = map upper_ascii (list_ascii_of_string s).
Proof. induction s as [|c s IH]; [reflexivity|]. cbn. now rewrite IH. Qed.

Lemma toUpperCase_length s : String.length (toUpperCase s) = String.length s.
Proof. induction s as [|c s IH]; [reflexivity|]. cbn. now rewrite IH. Qed.

Lemma string_of_list_length l : String.length (string_of_list_ascii l) = length l.
Proof. induction l as [|c l IH]; [reflexivity|]. cbn. now rewrite IH. Qed.

Lemma hex_of_bytes_length l : String.length (hex_of_bytes l) = (2 * length l)%nat.
Proof.
  unfold hex_of_bytes. rewrite string_of_list_length.
  induction l as [|b l IH]; [reflexivity|]. cbn [flat_map app length]. lia.
Qed.

Lemma hex_of_bytes_upper l :
  Forall is_byte l -> all_chars is_hex_upper (toUpperCase (hex_of_bytes l)) = true.
Proof.
  intros H. unfold all_chars, hex_of_bytes.
  rewrite toUpperCase_chars, list_ascii_of_string_of_list.
  induction H as [|b l Hb Hl IH]; [reflexivity|].
  cbn [flat_map app map forallb].
  rewrite (hex_digit_upper _ (high_nibble b Hb)), (hex_digit_upper _ (low_nibble b)).
  exact IH.
Qed.

(** A SHA-256 digest is 32 bytes, whatever is hashed. *)
Lemma round_length st kw : length (SHA256.round st kw) = length st.
Proof.
  unfold SHA256.round.
  destruct st as [|a [|b [|c [|d [|e [|f [|g [|h [|i st]]]]]]]]]; reflexivity.
Qed.

Lemma fold_round_length l st : length (fold_left SHA256.round l st) = length st.
Proof.
  revert st. induction l as [|kw l IH]; intros st; [reflexivity|].
  cbn [fold_left]. now rewrite IH, round_length.
Qed.

Lemma compress_length st block : length (SHA256.compress st block) = length st.
Proof.
  unfold SHA256.compress.
  rewrite length_map, length_combine, fold_round_length. lia.
Qed.

Lemma fold_compress_length l st : length (fold_left SHA256.compress l st) = length st.
Proof.
  revert st. induction l as [|b l IH]; intros st; [reflexivity|].
  cbn [fold_left]. now rewrite IH, compress_length.
Qed.

Lemma be_bytes_length n x : length (SHA256.be_bytes n x) = n.
Proof. unfold SHA256.be_bytes. now rewrite length_map, length_rev, length_seq. Qed.

Lemma be_bytes_bytes n x : Forall is_byte (SHA256.be_bytes n x).
Proof.
  unfold SHA256.be_bytes. apply Forall_map, Forall_forall. intros i _.
  unfold is_byte. change 255 with (Z.ones 8). rewrite Z.land_ones by lia.
  change (2 ^ 8) with 256. apply Z.mod_pos_bound. lia.
Qed.

Lemma sha256_length msg : length (SHA256.sha256 msg) = 32%nat.
Proof.
  unfold SHA256.sha256.
  assert (H : forall l : list Z, length (flat_map (SHA256.be_bytes 4) l) = (4 * length l)%nat).
  { induction l as [|x l IH]; [reflexivity|].
    cbn [flat_map]. rewrite length_app, be_bytes_length, IH. cbn [length]. lia. }
  rewrite H, fold_compress_length. reflexivity.
Qed.

Lemma sha256_bytes msg : Forall is_byte (SHA256.sha256 msg).
Proof.
  unfold SHA256.sha256. apply Forall_flat_map, Forall_forall.
  intros x _. apply be_bytes_bytes.
Qed.

Lemma hmac_length key msg : length (SHA256.hmac key msg) = 32%nat.
Proof. unfold SHA256.hmac. apply sha256_length. Qed.

Lemma hmac_bytes key msg : Forall is_byte (SHA256.hmac key msg).
Proof. unfold SHA256.hmac. apply sha256_bytes. Qed.

(** ** The token provider, along every path *)

Section Runs.

Variable E : Environment.

(** What a call of [getAccessToken] does, whatever the world answers. *)
Inductive getAccessToken_run (tr : Trace) : Outcome JsVal * Trace -> Prop :=
| token_run_returns tok evs :
    conforms E None (length tr) evs ->
    api_calls evs = 0%nat -> cache_deletes evs = 0%nat ->
    (auth_calls evs <= 1)%nat -> (cache_writes evs <= 1)%nat ->
    token_source evs tok ->
    getAccessToken_run tr (Return tok, evs ++ tr)
| token_run_throws e evs :
    conforms E None (length tr) evs ->
    api_calls evs = 0%nat -> cache_deletes evs = 0%nat ->
    cache_writes evs = 0%nat -> (auth_calls evs <= 1)%nat ->
    (credentials_set E -> auth_calls evs = 1%nat) ->
    (~ credentials_set E -> auth_calls evs = 0%nat) ->
    token_failure E evs e ->
    getAccessToken_run tr (Throw e, evs ++ tr).

(** What a call of [getRedisClient] does, with the URL it connects to. *)
Inductive getRedisClient_run (tr : Trace) : Outcome Conn * Trace -> Prop :=
| client_unconfigured :
    env_set E "REDIS_HOST" && env_set E "REDIS_PORT" && env_set E "REDIS_PASSWORD" = false ->
    getRedisClient_run tr
      (Throw (RedisError "Redis environment variables are not defined"), tr)
| client_refused m :
    redis_connect E tr (redis_url E) = Failed m ->
    getRedisClient_run tr (Throw (RedisError m), RedisConnect (redis_url E) (Failed m) :: tr)
| client_connected :
    env_set E "REDIS_HOST" = true -> env_set E "REDIS_PORT" = true ->
    env_set E "REDIS_PASSWORD" = true ->
    redis_connect E tr (redis_url E) = Done tt ->
    getRedisClient_run tr
      (Return (length tr), RedisConnect (redis_url E) (Done (length tr)) :: tr).

Lemma getRedisClient_runP tr : getRedisClient_run tr (getRedisClient E tr).
Proof.
  unfold getRedisClient. fold (redis_url E).
  destruct (env_set E "REDIS_HOST") eqn:Hh;
    [|apply client_unconfigured; now rewrite Hh].
  destruct (env_set E "REDIS_PORT") eqn:Hp;
    [|apply client_unconfigured; now rewrite Hh, Hp].
  destruct (env_set E "REDIS_PASSWORD") eqn:Hw;
    [|apply client_unconfigured; now rewrite Hh, Hp, Hw].
  cbv beta iota zeta delta [negb orb try_catch client_connect throw].
  destruct (redis_connect E tr (redis_url E)) as [m|[]] eqn:Hc.
  - now apply client_refused.
  - now apply client_connected.
Qed.

End Runs.

Ltac split_atom' :=
  first
    [ match goal with
      | |- context [getRedisClient ?E ?t] => destruct (getRedisClient_runP E t)
      end
    | split_atom ].

Ltac split_paths' := repeat (split_atom'; red_js).

Ltac run_getAccessToken' :=
  lazymatch goal with
  | |- context [getAccessToken ?E ?tr] =>
      pattern (getAccessToken E tr);
      lazymatch goal with
      | |- ?Q _ =>
          let post := fresh "post" in
          set (post := Q); unfold_js; split_paths'; subst post; cbv beta
      end
  end.

Ltac decide_handles :=
  repeat match goal with
         | |- context [Nat.eqb ?a ?b] =>
             destruct (Nat.eqb_spec a b); try lia
         end.

Ltac eval_counts :=
  cbn [api_calls auth_calls cache_writes cache_deletes failed_quits count List.filter
       length is_api_call is_auth_call is_set is_del carries_token existsb req_headers
       fst negb orb String.eqb Ascii.eqb Bool.eqb hits flat_map app].

Ltac eval_request :=
  cbv beta iota zeta delta
    [request_ok token_request_ok resource_request_ok signed_with header assoc carries_token
     existsb req_headers req_method req_url req_data req_timeout fst snd negb orb
     String.eqb Ascii.eqb Bool.eqb token_path
     sign timestamp clientId signature_of].

Ltac solve_each_request :=
  cbn [each_request]; eval_request;
  repeat match goal with |- _ /\ _ => split end;
  first [exact I | reflexivity].

Ltac solve_cache_ok :=
  repeat (apply List.Forall_cons;
          [cbn [cache_ok];
           first [ exact I | reflexivity
                 | split; [reflexivity | assumption] ] |]);
  apply List.Forall_nil.

Ltac clear_all := repeat match goal with H : _ |- _ => clear H end.

Ltac solve_handles :=
  clear_all; split;
  [ cbn [acquired In]; intros c Hin;
    repeat (destruct Hin as [<-|Hin]; [|try contradiction]);
    cbn [quits failed_quits count List.filter length is_quit_of];
    decide_handles; cbn [length];
    (split; [lia|]); (split; [lia|]); intros; first [lia | discriminate]
  | cbn [acquired In]; intros c Hin;
    cbn [quits count List.filter length is_quit_of];
    repeat match goal with
           | |- context [Nat.eqb ?a ?b] =>
               destruct (Nat.eqb_spec a b); [exfalso; apply Hin; auto 10|]
           end;
    reflexivity ].

Ltac solve_in_order :=
  clear_all; cbn [in_order acquired In quits count List.filter length is_quit_of];
  decide_handles; cbn [length];
  repeat match goal with |- _ /\ _ => split end;
  first [exact I | reflexivity | auto 10].

Ltac solve_conforms :=
  split; [solve_each_request|];
  split; [solve_cache_ok|];
  split; [solve_handles | solve_in_order].

Section TokenRun.

Variable E : Environment.

Lemma getAccessToken_runP tr : getAccessToken_run E tr (getAccessToken E tr).
Proof.
  run_getAccessToken'.
  all: lazymatch goal with
       | |- getAccessToken_run _ _ (?r, ?tr') =>
           let p := prefix_of tr' tr in change (getAccessToken_run E tr (r, p ++ tr))
       end.
  all: first [ apply token_run_returns | apply token_run_throws ].
  all: try reflexivity.
  all: try solve [eval_counts; lia].
  all: try solve [apply no_credentials; assumption].
  all: try solve [eapply vendor_silent; cbn [silences flat_map app In]; auto 10].
  all: try solve [intros ?; first [contradiction | reflexivity]].
  all: try solve [eapply vendor_error;
                  [cbn [responses flat_map app In]; auto 10 | assumption]].
  all: try solve [eapply vendor_refuses;
                       [cbn [responses flat_map app In]; auto 10
                       |unfold grants_token;
                        repeat match goal with H : truthy _ = _ |- _ => rewrite H end;
                        rewrite ?andb_false_r; reflexivity]].
  all: try solve [eapply from_cache;
                  [cbn [hits flat_map app];
                   repeat match goal with H : cached _ = _ |- _ => rewrite H end;
                   cbn [app In]; auto 10
                  |reflexivity]].
  all: try solve [apply from_vendor;
                  match goal with
                  | H : http _ _ _ = Response ?s ?d |- _ =>
                      let Hg := fresh "Hg" in
                      assert (Hg : grants_token s d = true)
                        by (now apply grants_token_intro);
                      cbn [granted flat_map carries_token existsb req_headers fst
                           String.eqb Ascii.eqb Bool.eqb orb negb andb];
                      rewrite Hg; cbn [app In]; auto 10
                  end].
  all: split; [|split; [|split]].
  all: try solve [solve_each_request].
  all: try solve [solve_cache_ok].
  all: try solve [solve_handles].
  all: try solve [solve_in_order].
Qed.

End TokenRun.

(** ** Putting runs one after the other *)

Lemma acquired_app a b : acquired (a ++ b) = acquired a ++ acquired b.
Proof.
  induction a as [|ev a IH]; [reflexivity|].
  destruct ev as [| url [m|c] | | | | |]; cbn [acquired app]; now rewrite ?IH.
Qed.

Lemma each_request_app (P : Request -> Z -> Trace -> Prop) a b :
  (forall req t older, P req t older -> P req t (older ++ b)) ->
  each_request P a -> each_request P b -> each_request P (a ++ b).
Proof.
  intros Hmono. induction a as [|ev a IH]; [easy|].
  destruct ev; cbn [each_request app]; try exact IH.
  intros [Hreq Ha] Hb. split; [|now apply IH].
  destruct a as [|[] a]; try contradiction. now apply Hmono.
Qed.

Lemma each_request_weaken (P Q : Request -> Z -> Trace -> Prop) evs :
  (forall req t older, P req t older -> Q req t older) ->
  each_request P evs -> each_request Q evs.
Proof.
  intros HPQ. induction evs as [|ev evs IH]; [easy|].
  destruct ev; cbn [each_request]; try exact IH.
  intros [Hreq Ha]. split; [|now apply IH].
  destruct evs as [|[] evs]; try contradiction. now apply HPQ.
Qed.

Lemma hits_app a b : hits (a ++ b) = hits a ++ hits b.
Proof. apply flat_map_app. Qed.

Lemma granted_app a b : granted (a ++ b) = granted a ++ granted b.
Proof. apply flat_map_app. Qed.

Lemma responses_app a b : responses (a ++ b) = responses a ++ responses b.
Proof. apply flat_map_app. Qed.

Lemma silences_app a b : silences (a ++ b) = silences a ++ silences b.
Proof. apply flat_map_app. Qed.

Lemma token_source_older a b tok : token_source a tok -> token_source (a ++ b) tok.
Proof.
  intros [t Hin Ht|Hin].
  - apply (from_cache _ _ t); [|exact Ht]. rewrite hits_app. apply in_or_app. now left.
  - apply from_vendor. rewrite granted_app. apply in_or_app. now left.
Qed.

Lemma failed_quits_app a b :
  failed_quits (a ++ b) = (failed_quits a + failed_quits b)%nat.
Proof. apply count_app. Qed.

Lemma quits_app c a b : quits c (a ++ b) = (quits c a + quits c b)%nat.
Proof. apply count_app. Qed.

Lemma handles_ok_app n a b :
  handles_ok n a -> handles_ok (n + length a) b -> handles_ok n (b ++ a).
Proof.
  intros [Ha Ha0] [Hb Hb0].
  assert (Hfresh : forall c, In c (acquired b) -> quits c a = 0%nat).
  { intros c Hc. apply Ha0. intros Hin.
    destruct (Hb c Hc) as [? _]. destruct (Ha c Hin) as [? _]. lia. }
  assert (Hold : forall c, In c (acquired a) -> quits c b = 0%nat).
  { intros c Hc. apply Hb0. intros Hin.
    destruct (Hb c Hin) as [? _]. destruct (Ha c Hc) as [? _]. lia. }
  split.
  - intros c Hc. rewrite acquired_app in Hc. rewrite quits_app, failed_quits_app, length_app.
    apply in_app_or in Hc as [Hc|Hc].
    + destruct (Hb c Hc) as (? & ? & ?). rewrite (Hfresh c Hc). repeat split; lia.
    + destruct (Ha c Hc) as (? & ? & ?). rewrite (Hold c Hc). repeat split; lia.
  - intros c Hc. rewrite acquired_app in Hc. rewrite quits_app.
    rewrite Ha0, Hb0; [reflexivity | |]; intros Hin; apply Hc, in_or_app; auto.
Qed.

Lemma in_order_app n a b :
  handles_ok n a -> handles_ok (n + length a) b ->
  in_order a -> in_order b -> in_order (b ++ a).
Proof.
  intros [Ha Ha0] [Hb _] Hia.
  assert (Hfresh : forall c, In c (acquired b) -> quits c a = 0%nat).
  { intros c Hc. apply Ha0. intros Hin.
    destruct (Hb c Hc) as [? _]. destruct (Ha c Hin) as [? _]. lia. }
  clear Ha Ha0 Hb. induction b as [|ev b IH]; [easy|].
  assert (Hsub : forall c, In c (acquired b) -> In c (acquired (ev :: b))).
  { intros c Hc. destruct ev as [| url [m|c'] | | | | |]; cbn [acquired In]; auto. }
  intros [Hev Hb]. cbn [app in_order]. split; [|apply IH; auto].
  destruct ev; try exact I; rewrite acquired_app, ?quits_app.
  - destruct Hev as [Hin Hq]. split; [apply in_or_app; auto|].
    rewrite Hq, (Hfresh c (Hsub c Hin)). reflexivity.
  - destruct Hev as [Hin Hq]. split; [apply in_or_app; auto|].
    rewrite Hq, (Hfresh c (Hsub c Hin)). reflexivity.
  - destruct Hev as [Hin Hq]. split; [apply in_or_app; auto|].
    rewrite Hq, (Hfresh c (Hsub c Hin)). reflexivity.
  - apply in_or_app; auto.
Qed.

(** An event that is no call to the cache. *)
Lemma handles_ok_skip n ev evs :
  is_redis ev = false -> handles_ok n evs -> handles_ok n (ev :: evs).
Proof.
  intros Hev [H1 H0].
  assert (Ha : acquired (ev :: evs) = acquired evs) by (now destruct ev).
  assert (Hq : forall c, quits c (ev :: evs) = quits c evs).
  { intros c. unfold quits. rewrite count_cons. now destruct ev. }
  assert (Hf : failed_quits (ev :: evs) = failed_quits evs).
  { unfold failed_quits. rewrite count_cons. now destruct ev. }
  split.
  - intros c Hc. rewrite Ha in Hc. rewrite Hq, Hf. cbn [length].
    destruct (H1 c Hc) as (? & ? & ?). repeat split; auto; lia.
  - intros c Hc. rewrite Ha in Hc. rewrite Hq. now apply H0.
Qed.

Section Composition.

Variable E : Environment.

Lemma conforms_app call n a b :
  conforms E call n a -> conforms E call (n + length a) b -> conforms E call n (b ++ a).
Proof.
  intros (Hra & Hca & Hha & Hia) (Hrb & Hcb & Hhb & Hib).
  split.
  { apply each_request_app; [|assumption..].
    intros req t older. unfold request_ok.
    destruct (carries_token req); [|auto]. destruct call as [[[m p] d]|]; [|auto].
    intros [H1 H2]. split; [exact H1|]. now apply token_source_older. }
  split; [apply Forall_app; now split|].
  split; [now apply handles_ok_app | now apply (in_order_app n)].
Qed.

Lemma conforms_weaken call n evs :
  conforms E None n evs -> conforms E call n evs.
Proof.
  intros (Hr & H). split; [|exact H].
  apply (each_request_weaken (request_ok E None)); [|exact Hr].
  intros req t older. unfold request_ok. now destruct (carries_token req).
Qed.

Lemma conforms_nil call n : conforms E call n [].
Proof.
  split; [exact I|]. split; [constructor|]. split; [|exact I].
  split; [intros c []|reflexivity].
Qed.

(** A request for a resource, sent right after a reading of the clock. *)
Lemma conforms_resource_request method path data n evs req r t :
  conforms E (Some (method, path, data)) n evs ->
  carries_token req = true ->
  resource_request_ok E method path data req t ->
  token_source evs (header req "access_token") ->
  conforms E (Some (method, path, data)) n (Http req r :: Clock t :: evs).
Proof.
  intros (Hr & Hc & Hh & Hi) Hreq Hok Hsrc.
  split; [|split; [|split]].
  - cbn [each_request]. split; [|exact Hr]. unfold request_ok. now rewrite Hreq.
  - now repeat constructor.
  - now do 2 (apply handles_ok_skip; [reflexivity|]).
  - cbn [in_order]. auto.
Qed.

End Composition.

(** ** A request, along every path *)

Section RequestRun.

Variable E : Environment.

(** One attempt: the call made with [retry = false]. *)
Inductive attempt_run (method path : string) (data : JsVal) (tr : Trace) :
  Outcome JsVal * Trace -> Prop :=
| attempt_run_ends r evs :
    conforms E (Some (method, path, data)) (length tr) evs ->
    (api_calls evs <= 1)%nat -> cache_deletes evs = 0%nat ->
    (auth_calls evs <= 1)%nat ->
    request_outcome E evs r ->
    attempt_run method path data tr (r, evs ++ tr).

(** The events of [tr'] that came after the last request. *)
Ltac since_request tr' :=
  lazymatch tr' with
  | Http _ _ :: _ => constr:(@nil Event)
  | ?e :: ?l => let p := since_request l in constr:(e :: p)
  end.

Ltac unfold_request :=
  cbn [makeCustomRequest];
  cbv beta iota zeta delta
    [with_local try_catch bind lift assign read_local ignore_errors
     try_finally ret throw out_of_fuel get_field fst snd orb negb andb].

Ltac split_request' :=
  repeat (first
    [ match goal with
      | |- context [getAccessToken ?E ?t] => destruct (getAccessToken_runP E t)
      | |- context [if strict_eq_num ?v ?n then _ else _] =>
          destruct (strict_eq_num v n) eqn:?
      | |- context [if (400 <=? ?s) then _ else _] => destruct (400 <=? s) eqn:?
      end
    | split_atom' ]; red_js).

Lemma below_400 status :
  (200 <=? status) && (status <? 500) = true -> (400 <=? status) = false ->
  (200 <=? status) && (status <? 400) = true.
Proof.
  intros H1 H2. apply andb_prop in H1 as [H1 _].
  rewrite H1. apply Z.leb_gt in H2. apply Z.ltb_lt in H2. now rewrite H2.
Qed.

Ltac solve_request_conforms :=
  first
    [ apply conforms_weaken; assumption
    | apply conforms_resource_request;
      [ apply conforms_weaken; assumption
      | reflexivity
      | eval_request;
        repeat match goal with H : truthy _ = _ |- _ => rewrite H end;
        repeat match goal with |- _ /\ _ => split end; reflexivity
      | assumption ] ].

Ltac solve_request_outcome :=
  cbv beta in *;
  first
    [ apply token_unavailable; assumption
    | apply token_unavailable, no_credentials; assumption
    | eapply request_unanswered; [reflexivity | reflexivity]
    | eapply request_refused; [reflexivity | reflexivity | assumption]
    | eapply envelope_returned;
      [reflexivity | reflexivity | assumption | intros; congruence]
    | eapply envelope_missing;
      [reflexivity | reflexivity | now apply below_400 | assumption] ].

Lemma makeCustomRequest_attempt_run fuel method path data tr :
  attempt_run method path data tr (makeCustomRequest E (S fuel) method path data false tr).
Proof.
  unfold_request. split_request'.
  all: lazymatch goal with
       | |- attempt_run _ _ _ _ (?r, ?tr') =>
           let p := prefix_of tr' tr in
           replace tr' with (p ++ tr) by trace_eq
       end.
  all: apply attempt_run_ends.
  all: try solve [count_events; lia].
  all: try solve [solve_request_conforms].
  all: solve_request_outcome.
Qed.

(** The call with [retry], against the call without: what comes between
    the first answer, when its code is the sentinel, and the second call. *)
Lemma retry_run fuel fuel' method path data tr :
  match makeCustomRequest E (S fuel') method path data false tr with
  | (Return envelope, tr1) =>
      if strict_eq_num (opt_field envelope "code") 1010 then
        exists evs,
          makeCustomRequest E (S fuel) method path data true tr
          = makeCustomRequest E fuel method path data false (evs ++ tr1)
          /\ conforms E (Some (method, path, data)) (length tr1) evs
          /\ api_calls evs = 0%nat /\ auth_calls evs = 0%nat
          /\ (cache_deletes evs <= 1)%nat
      else
        makeCustomRequest E (S fuel) method path data true tr = (Return envelope, tr1)
  | (r, tr1) => makeCustomRequest E (S fuel) method path data true tr = (r, tr1)
  end.
Proof.
  unfold_request.
  repeat (first
    [ match goal with
      | |- context [getAccessToken ?E ?t] => destruct (getAccessTokenP E t)
      | |- context [if strict_eq_num ?v ?n then _ else _] =>
          destruct (strict_eq_num v n) eqn:?
      | |- context [if (400 <=? ?s) then _ else _] => destruct (400 <=? s) eqn:?
      end
    | split_atom' ]; red_js).
  all: try reflexivity.
  all: repeat match goal with
              | H : strict_eq_num _ _ = _ |- _ => rewrite H
              end.
  all: try reflexivity.
  all: try discriminate.
  all: try match goal with
           | Hn : is_nullish ?d = true, Hs : strict_eq_num (opt_field ?d _) _ = true |- _ =>
               unfold opt_field in Hs; rewrite Hn in Hs; discriminate Hs
           end.
  all: rewrite rethrow_id.
  all: match goal with
       | |- exists evs, makeCustomRequest _ _ _ _ _ _ ?tr' = _ /\ _ =>
           let p := since_request tr' in
           exists p; split; [reflexivity|]
       end.
  all: split; [solve_conforms|].
  all: split; [reflexivity|]. all: split; [reflexivity|].
  all: count_events; lia.
Qed.

Lemma token_failure_older a b e : token_failure E a e -> token_failure E (a ++ b) e.
Proof.
  intros [Hc|m Hin|status data Hin Hv|status data Hin Hg].
  - now apply no_credentials.
  - apply vendor_silent. rewrite silences_app. apply in_or_app. now left.
  - apply (vendor_error _ _ status data); [|assumption].
    rewrite responses_app. apply in_or_app. now left.
  - apply (vendor_refuses _ _ status data); [|exact Hg].
    rewrite responses_app. apply in_or_app. now left.
Qed.

Lemma request_outcome_older a b r :
  request_outcome E a r -> request_outcome E (a ++ b) r.
Proof.
  intros [req status data evs' -> Hreq Hs Hn|req m evs' -> Hreq
         |req status data evs' -> Hreq Hs|req status data evs' -> Hreq Hs Hn|e He].
  - now apply (envelope_returned E _ req status data (evs' ++ b)).
  - now apply (request_unanswered E _ req m (evs' ++ b)).
  - now apply (request_refused E _ req status data (evs' ++ b)).
  - now apply (envelope_missing E _ req status data (evs' ++ b)).
  - now apply token_unavailable, token_failure_older.
Qed.

Lemma conforms_after call tr a b :
  conforms E call (length tr) a -> conforms E call (length (a ++ tr)) b ->
  conforms E call (length tr) (b ++ a).
Proof.
  intros Ha Hb. apply conforms_app; [exact Ha|].
  now rewrite length_app, Nat.add_comm in Hb.
Qed.

(** Any call of [makeCustomRequest]. *)
Inductive request_run (method path : string) (data : JsVal) (retry : bool) (tr : Trace) :
  Outcome JsVal * Trace -> Prop :=
| request_run_ends r evs :
    conforms E (Some (method, path, data)) (length tr) evs ->
    (api_calls evs <= if retry then 2 else 1)%nat ->
    (cache_deletes evs <= if retry then 1 else 0)%nat ->
    (auth_calls evs <= if retry then 2 else 1)%nat ->
    request_outcome E evs r ->
    request_run method path data retry tr (r, evs ++ tr).

Lemma makeCustomRequest_run fuel method path data retry tr :
  request_run method path data retry tr
    (makeCustomRequest E (S (S fuel)) method path data retry tr).
Proof.
  destruct retry.
  - generalize (retry_run (S fuel) 0 method path data tr).
    destruct (makeCustomRequest_attempt_run 0 method path data tr)
      as [r1 evs1 Hc1 Ha1 Hd1 Hu1 Ho1].
    destruct r1 as [envelope|e|];
      [destruct (strict_eq_num (opt_field envelope "code") 1010)|..].
    + intros (evs & -> & Hc & Ha & Hu & Hd).
      destruct (makeCustomRequest_attempt_run fuel method path data (evs ++ evs1 ++ tr))
        as [r2 evs2 Hc2 Ha2 Hd2 Hu2 Ho2].
      replace (evs2 ++ evs ++ evs1 ++ tr) with ((evs2 ++ evs ++ evs1) ++ tr)
        by now rewrite <- !app_assoc.
      apply request_run_ends.
      * apply conforms_after; [now apply conforms_after|]. now rewrite <- app_assoc.
      * unfold api_calls in *. rewrite !count_app. lia.
      * unfold cache_deletes in *. rewrite !count_app. lia.
      * unfold auth_calls in *. rewrite !count_app. lia.
      * now apply request_outcome_older.
    + intros ->. apply request_run_ends; auto; lia.
    + intros ->. apply request_run_ends; auto; lia.
    + intros ->. apply request_run_ends; auto; lia.
  - destruct (makeCustomRequest_attempt_run (S fuel) method path data tr)
      as [r evs Hc Ha Hd Hu Ho].
    apply request_run_ends; auto; lia.
Qed.

End RequestRun.

(** ** An action, along every path *)

Section ActionRun.

Variable E : Environment.

(** An action that sends [makeCustomRequest(method, path, data)] and
    answers with [k] from the envelope. *)
Inductive action_run (method path : string) (data : JsVal)
    (k : JsVal -> JsVal -> M Trace JsVal) (tr : Trace) : Outcome JsVal * Trace -> Prop :=
| action_done req status envelope evs' :
    conforms E (Some (method, path, data)) (length tr)
      (Http req (Response status envelope) :: evs') ->
    (api_calls (Http req (Response status envelope) :: evs') <= 2)%nat ->
    (cache_deletes evs' <= 1)%nat -> (auth_calls evs' <= 2)%nat ->
    carries_token req = true ->
    (200 <=? status) && (status <? 500) = true ->
    is_nullish envelope = false ->
    action_run method path data k tr
      (k envelope (field envelope "success")
         ((Http req (Response status envelope) :: evs') ++ tr))
| action_failed e evs :
    conforms E (Some (method, path, data)) (length tr) evs ->
    (api_calls evs <= 2)%nat -> (cache_deletes evs <= 1)%nat ->
    (auth_calls evs <= 2)%nat ->
    action_failure E evs e ->
    action_run method path data k tr (Return (internal_error e), evs ++ tr).

Lemma after_request fuel method path data k tr :
  (forall result success t, exists v, k result success t = (Return v, t)) ->
  action_run method path data k tr
    (try_catch
       (do result <- makeCustomRequest E (S (S fuel)) method path data true ;
        do success <- get_field E result "success" ;
        k result success)
       (fun error =>
          ret (JObj [("success", JBool false);
                     ("error", JStr (error_message error));
                     ("tuya_response", error_response_data error);
                     ("message", JStr "Internal error processing Tuya request.")]))
       tr).
Proof.
  intros Hk. unfold try_catch, bind.
  destruct (makeCustomRequest_run E fuel method path data true tr)
    as [r evs Hc Ha Hd Hu Ho].
  destruct Ho as [req status envelope evs' -> Hreq Hs Hn|req m evs' -> Hreq
                 |req status envelope evs' -> Hreq Hs|req status envelope evs' -> Hreq Hs Hn
                 |e He].
  - unfold get_field.
    assert (Hd' : (cache_deletes evs' <= 1)%nat).
    { unfold cache_deletes in *. now rewrite count_cons in Hd. }
    assert (Hu' : (auth_calls evs' <= 2)%nat).
    { unfold auth_calls in *. rewrite count_cons in Hu. lia. }
    destruct (is_nullish envelope) eqn:Hnull.
    + apply (action_failed _ _ _ _ _ _ _ Hc Ha Hd Hu).
      destruct (400 <=? status) eqn:H4; [|specialize (Hn eq_refl); congruence].
      apply (no_envelope E _ req status envelope evs'); auto.
      apply andb_prop in Hs as [_ Hs]. now rewrite H4, Hs.
    + unfold ret.
      destruct (Hk envelope (field envelope "success")
                  ((Http req (Response status envelope) :: evs') ++ tr)) as [v Hv].
      pose proof (action_done method path data k tr req status envelope evs'
                    Hc Ha Hd' Hu' Hreq Hs Hnull) as H.
      rewrite Hv in H |- *. exact H.
  - apply (action_failed _ _ _ _ _ _ _ Hc Ha Hd Hu), request_failed.
    now apply (request_unanswered _ _ req m evs').
  - apply (action_failed _ _ _ _ _ _ _ Hc Ha Hd Hu), request_failed.
    now apply (request_refused _ _ req status envelope evs').
  - apply (action_failed _ _ _ _ _ _ _ Hc Ha Hd Hu), request_failed.
    now apply (envelope_missing _ _ req status envelope evs').
  - apply (action_failed _ _ _ _ _ _ _ Hc Ha Hd Hu), request_failed.
    now apply token_unavailable.
Qed.

(** Any call of the module. *)
Inductive module_run (queryParams : gmap string string) (tr : Trace) :
  Outcome JsVal * Trace -> Prop :=
| module_answers v evs call :
    conforms E call (length tr) evs ->
    (api_calls evs <= 2)%nat -> (cache_deletes evs <= 1)%nat ->
    (auth_calls evs <= 2)%nat ->
    has_message v = true
    \/ (is_number v = true /\ param queryParams "action" = "status") ->
    module_run queryParams tr (Return v, evs ++ tr).

Lemma conforms_clock call n t : conforms E call n [Clock t].
Proof.
  split; [exact I|]. split; [repeat constructor|]. split; [|cbn [in_order]; auto].
  split; [intros c []|reflexivity].
Qed.

Lemma action_module_run queryParams method path data k tr x :
  action_run method path data k tr x ->
  (forall result success t,
     exists v, k result success t = (Return v, t)
               /\ (has_message v = true
                   \/ (is_number v = true /\ param queryParams "action" = "status"))) ->
  module_run queryParams tr x.
Proof.
  intros [req status envelope evs' Hc Ha Hd Hu Hreq Hs Hn|e evs Hc Ha Hd Hu He] Hk.
  - destruct (Hk envelope (field envelope "success")
                ((Http req (Response status envelope) :: evs') ++ tr)) as (v & -> & Hv).
    apply (module_answers _ _ _ _ _ Hc); auto.
    unfold auth_calls in *. rewrite count_cons. cbn [is_auth_call]. rewrite Hreq.
    exact Hu.
  - apply (module_answers _ _ _ _ _ Hc); auto.
Qed.

Ltac run_action fuel :=
  cbv beta iota;
  lazymatch goal with
  | |- module_run ?q _
         (try_catch
            (bind (makeCustomRequest _ _ ?m ?p ?d true)
               (fun result => bind (get_field _ result "success")
                                (fun success => @?k result success)))
            _ ?tr) =>
      apply (action_module_run q m p d k tr);
      [ apply (after_request fuel m p d k tr);
        intros; cbv beta; try destruct (has_reading _); eexists; reflexivity
      | intros; cbv beta ]
  end.

Lemma eqb_param queryParams name value :
  String.eqb (if given queryParams name then param queryParams name else "test") value = true ->
  value <> "test" -> param queryParams name = value.
Proof.
  intros H Hv. apply String.eqb_eq in H. destruct (given queryParams name); congruence.
Qed.

Lemma tuyaModule_run fuel queryParams tr :
  module_run queryParams tr (tuyaModule E (S (S fuel)) queryParams tr).
Proof.
  unfold tuyaModule.
  destruct (negb (env_set E "TUYA_CLIENT_ID") || negb (env_set E "TUYA_CLIENT_SECRET")).
  { apply (module_answers _ _ _ [] None (conforms_nil E None _)); auto. }
  cbv zeta.
  set (action := if given queryParams "action" then param queryParams "action" else "test").
  destruct (String.eqb action "test").
  { apply (module_answers _ _ _ [Clock (Date_now E tr)] None (conforms_clock _ _ _)); auto. }
  destruct (String.eqb action "request" && given queryParams "path").
  { destruct (if given queryParams "data" then JSON_parse E (param queryParams "data")
              else inl JNull) as [data|message].
    - run_action fuel. eexists. split; [reflexivity|]. now left.
    - apply (module_answers _ _ _ [] None (conforms_nil E None _)); auto. }
  destruct (String.eqb action "status" && given queryParams "id") eqn:Hstatus.
  { run_action fuel. apply andb_prop in Hstatus as [Hstatus _].
    apply eqb_param in Hstatus; [|discriminate].
    destruct (has_reading result); eexists; (split; [reflexivity|]); auto. }
  destruct (String.eqb action "devices").
  { run_action fuel. eexists. split; [reflexivity|]. now left. }
  destruct (String.eqb action "state" && given queryParams "id").
  { run_action fuel. eexists. split; [reflexivity|]. now left. }
  destruct (String.eqb action "control" && given queryParams "id"
            && given queryParams "command").
  { destruct (negb (String.eqb (toLowerCase (param queryParams "command")) "on")
              && negb (String.eqb (toLowerCase (param queryParams "command")) "off")).
    - apply (module_answers _ _ _ [] None (conforms_nil E None _)); auto.
    - run_action fuel. eexists. split; [reflexivity|]. now left. }
  apply (module_answers _ _ _ [] None (conforms_nil E None _)); auto.
Qed.

End ActionRun.

(** ** lib/redis.js *)

Lemma encodeURIComponent_chars s :
  list_ascii_of_string (encodeURIComponent s)
  = flat_map (fun c => encode_byte (Z.of_N (N_of_ascii c))) (list_ascii_of_string s).
Proof.
  unfold encodeURIComponent, bytes_of_string.
  rewrite list_ascii_of_string_of_list, flat_map_concat_map, map_map,
    <- flat_map_concat_map.
  reflexivity.
Qed.

Lemma encode_byte_safe c : forallb uri_safe (encode_byte (Z.of_N (N_of_ascii c))) = true.
Proof. destruct c as [[] [] [] [] [] [] [] []]; reflexivity. Qed.

Lemma encode_byte_decode c rest :
  percent_decode_chars (encode_byte (Z.of_N (N_of_ascii c)) ++ rest)
  = c :: percent_decode_chars rest.
Proof. destruct c as [[] [] [] [] [] [] [] []]; reflexivity. Qed.

Lemma encodeURIComponent_safe s : all_chars uri_safe (encodeURIComponent s) = true.
Proof.
  unfold all_chars. rewrite encodeURIComponent_chars.
  induction (list_ascii_of_string s) as [|c l IH]; [reflexivity|].
  cbn [flat_map]. rewrite forallb_app, encode_byte_safe. exact IH.
Qed.

Lemma encodeURIComponent_decode s : percent_decode (encodeURIComponent s) = s.
Proof.
  unfold percent_decode. rewrite encodeURIComponent_chars.
  rewrite <- (string_of_list_ascii_of_string s) at 2. f_equal.
  induction (list_ascii_of_string s) as [|c l IH]; [reflexivity|].
  cbn [flat_map]. now rewrite encode_byte_decode, IH.
Qed.

(** X3. [getRedisClient] throws, and connects to nothing, when one of the
    three variables is absent or empty; otherwise it tries one connection,
    to the URL made of the variables, and returns the client or throws what
    the connection failed with.  The password goes into the URL
    percent-encoded: it holds none of the characters that delimit the
    parts of a URL, whatever the password is, and decoding gives the
    password back. *)
Theorem getRedisClient_connects E tr :
  (env_set E "REDIS_HOST" && env_set E "REDIS_PORT" && env_set E "REDIS_PASSWORD" = false ->
   getRedisClient E tr
   = (Throw (RedisError "Redis environment variables are not defined"), tr))
  /\ (env_set E "REDIS_HOST" && env_set E "REDIS_PORT" && env_set E "REDIS_PASSWORD" = true ->
      let url := "redis://default:" +:+ encodeURIComponent (env E "REDIS_PASSWORD")
                 +:+ "@" +:+ env E "REDIS_HOST" +:+ ":" +:+ env E "REDIS_PORT" in
      getRedisClient E tr
      = match redis_connect E tr url with
        | Done _ => (Return (length tr), RedisConnect url (Done (length tr)) :: tr)
        | Failed m => (Throw (RedisError m), RedisConnect url (Failed m) :: tr)
        end)
  /\ all_chars uri_safe (encodeURIComponent (env E "REDIS_PASSWORD")) = true
  /\ (forall c, In c (list_ascii_of_string (encodeURIComponent (env E "REDIS_PASSWORD"))) ->
        ~ In c (list_ascii_of_string "@:/?#[] "))
  /\ percent_decode (encodeURIComponent (env E "REDIS_PASSWORD")) = env E "REDIS_PASSWORD".
Proof.
  split; [|split; [|split; [|split]]].
  - intros H. unfold getRedisClient.
    destruct (env_set E "REDIS_HOST"), (env_set E "REDIS_PORT"),
      (env_set E "REDIS_PASSWORD"); try discriminate H; reflexivity.
  - intros H. unfold getRedisClient.
    destruct (env_set E "REDIS_HOST"), (env_set E "REDIS_PORT"),
      (env_set E "REDIS_PASSWORD"); try discriminate H.
    cbv beta iota zeta delta [negb orb try_catch client_connect throw].
    now destruct (redis_connect E tr _).
  - apply encodeURIComponent_safe.
  - intros c Hin Hdel.
    pose proof (encodeURIComponent_safe (env E "REDIS_PASSWORD")) as Hsafe.
    unfold all_chars in Hsafe. rewrite forallb_forall in Hsafe.
    specialize (Hsafe c Hin). cbn [list_ascii_of_string In] in Hdel.
    repeat (destruct Hdel as [<-|Hdel]; [discriminate Hsafe|]). contradiction.
  - apply encodeURIComponent_decode.
Qed.

(** X4. The [reconnectStrategy] given to the Redis client gives up, with
    an error, after three retries; before that it waits 50 milliseconds per
    retry made, 150 at most: the cap of 500 is never reached. *)
Theorem reconnectStrategy_bounds retries :
  (3 < retries -> reconnectStrategy retries = inl (Error "Redis reconnect failed"))
  /\ (retries <= 3 ->
      reconnectStrategy retries = inr (retries * 50) /\ retries * 50 <= 150).
Proof.
  unfold reconnectStrategy. split; intros H.
  - apply Z.ltb_lt in H. now rewrite H.
  - destruct (Z.ltb_spec 3 retries); [lia|]. split; [f_equal; lia | lia].
Qed.

(** ** The signature *)

Lemma digit_char_digit d : 0 <= d < 10 -> is_digit (digit_char d) = true.
Proof.
  intros H. assert (Hd : In d [0; 1; 2; 3; 4; 5; 6; 7; 8; 9]) by (cbn [In]; lia).
  cbn [In] in Hd. repeat (destruct Hd as [<-|Hd]; [reflexivity|]). contradiction.
Qed.

Lemma dec_digits_digits fuel n acc :
  all_chars is_digit acc = true -> all_chars is_digit (dec_digits fuel n acc) = true.
Proof.
  revert n acc. induction fuel as [|fuel IH]; intros n acc Hacc; [exact Hacc|].
  cbn [dec_digits].
  assert (H : all_chars is_digit (String (digit_char (n mod 10)) acc) = true).
  { unfold all_chars in *. cbn [list_ascii_of_string forallb].
    rewrite digit_char_digit by (apply Z.mod_pos_bound; lia). exact Hacc. }
  destruct (n <? 10); [exact H | now apply IH].
Qed.

Lemma dec_of_Z_digits n : 0 <= n -> all_chars is_digit (dec_of_Z n) = true.
Proof.
  intros H. unfold dec_of_Z. destruct (Z.ltb_spec n 0); [lia|].
  now apply dec_digits_digits.
Qed.



(** ** The token provider *)

Lemma hits_not_empty evs t : In t (hits evs) -> t <> "".
Proof.
  induction evs as [|ev evs IH]; [intros []|].
  intros Hin. change (ev :: evs) with ([ev] ++ evs) in Hin. rewrite hits_app in Hin.
  apply in_app_or in Hin as [Hin|Hin]; [|now apply IH].
  destruct ev as [| | c k [m|v] | | | |]; try contradiction.
  cbn [hits flat_map app] in Hin. destruct (cached v) as [t'|] eqn:Hv; [|contradiction].
  destruct Hin as [<-|[]]. now apply cached_Some in Hv.
Qed.

Lemma granted_truthy evs tok : In tok (granted evs) -> truthy tok = true.
Proof.
  induction evs as [|ev evs IH]; [intros []|].
  intros Hin. change (ev :: evs) with ([ev] ++ evs) in Hin. rewrite granted_app in Hin.
  apply in_app_or in Hin as [Hin|Hin]; [|now apply IH].
  destruct ev as [| | | | | |req [m|status data]]; try contradiction.
  cbn [granted flat_map app] in Hin.
  destruct (negb (carries_token req)); [|contradiction].
  destruct (grants_token status data) eqn:Hg; [|contradiction].
  destruct Hin as [<-|[]]. apply grants_token_inv in Hg as (_ & _ & Ht).
  unfold granted_token. unfold opt_field in Ht.
  now destruct (is_nullish (field data "result")).
Qed.

Lemma no_request_no_answer evs :
  api_calls evs = 0%nat -> auth_calls evs = 0%nat ->
  responses evs = [] /\ silences evs = [].
Proof.
  unfold api_calls, auth_calls.
  induction evs as [|ev evs IH]; [now split|].
  rewrite !count_cons. intros Ha Hu.
  destruct ev as [| | | | | |req r]; cbn [responses silences flat_map app];
    try (apply IH; assumption).
  cbn [is_api_call is_auth_call] in Ha, Hu. destruct (carries_token req); discriminate.
Qed.



(** X7. A token that [getAccessToken] returns is one the cache answered
    the read with, or one the vendor granted, in this call; it is never
    empty, null or undefined. *)
Theorem getAccessToken_token_source E tr tok tr' :
  getAccessToken E tr = (Return tok, tr') ->
  exists evs,
    tr' = evs ++ tr /\ token_source evs tok /\ truthy tok = true.
Proof.
  intros Hrun. pose proof (getAccessToken_runP E tr) as H. rewrite Hrun in H.
  inversion H as [tok' evs Hc Ha Hd Hu Hw Hs|]; subst.
  exists evs. split; [reflexivity|]. split; [exact Hs|].
  destruct Hs as [t Hin ->|Hin].
  - apply hits_not_empty in Hin. cbn [truthy].
    destruct (String.eqb_spec t ""); [contradiction | reflexivity].
  - now apply (granted_truthy evs).
Qed.

Lemma getAccessToken_token_source_witness :
  exists evs,
    getAccessToken (scripted short_lived) [] = (Return (JStr "fresh-token"), evs ++ [])
    /\ token_source evs (JStr "fresh-token").
Proof.
  destruct (getAccessToken (scripted short_lived) []) as [r tr'] eqn:Hrun.
  assert (Hr : r = Return (JStr "fresh-token")).
  { change r with (fst (r, tr')). rewrite <- Hrun. vm_compute. reflexivity. }
  subst r.
  destruct (getAccessToken_token_source (scripted short_lived) [] _ tr' Hrun)
    as (evs & -> & Hs & _).
  exists evs. split; [reflexivity | exact Hs].
Defined.

(** ** The signed request client *)

(** X8. Every request that a call of [makeCustomRequest] sends comes right
    after a reading of the clock and carries the signature made with that
    reading.  The request for a token is a GET of the token path, signed
    with an empty token and body.  A request for a resource has the method
    in upper case, the path after the base URL, the data as body only when
    the data is truthy and the method POST, PUT or PATCH, a timeout of ten
    seconds, and the bearer token it is signed with, which the cache or the
    vendor gave earlier in the call; the body that is signed is the JSON
    text of the data whenever the data is truthy, sent or not. *)
Theorem makeCustomRequest_requests E fuel method path data retry tr :
  (2 <= fuel)%nat ->
  exists r evs,
    makeCustomRequest E fuel method path data retry tr = (r, evs ++ tr)
    /\ each_request (request_ok E (Some (method, path, data))) evs.
Proof.
  intros Hfuel. destruct fuel as [|[|fuel]]; [lia | lia |].
  destruct (makeCustomRequest_run E fuel method path data retry tr)
    as [r evs (Hr & _) _ _ _ _].
  now exists r, evs.
Qed.

Lemma makeCustomRequest_requests_witness :
  exists r evs,
    makeCustomRequest (scripted token_refused) 2 "post" "/v1.0/devices/d1/commands"
      (JObj [("commands", JArr [])]) true []
    = (r, evs ++ [])
    /\ each_request
         (request_ok (scripted token_refused)
            (Some ("post", "/v1.0/devices/d1/commands", JObj [("commands", JArr [])])))
         evs.
Proof.
  apply (makeCustomRequest_requests (scripted token_refused) 2 "post"
           "/v1.0/devices/d1/commands" (JObj [("commands", JArr [])]) true []).
  lia.
Defined.



(** ** The module *)

(** X10. Whatever the query and whatever the world does, a call of the
    module returns: it throws nothing.  It sends at most two requests for a
    resource and two for a token, and deletes the cached token at most
    once.  What it returns is an object with a [message] that is a string,
    or, for the status action only, a number. *)
Theorem tuyaModule_always_answers E fuel queryParams tr :
  (2 <= fuel)%nat ->
  exists v evs,
    tuyaModule E fuel queryParams tr = (Return v, evs ++ tr)
    /\ (api_calls evs <= 2)%nat /\ (auth_calls evs <= 2)%nat
    /\ (cache_deletes evs <= 1)%nat
    /\ (has_message v = true
        \/ (is_number v = true /\ param queryParams "action" = "status")).
Proof.
  intros Hfuel. destruct fuel as [|[|fuel]]; [lia | lia |].
  destruct (tuyaModule_run E fuel queryParams tr) as [v evs call _ Ha Hd Hu Hv].
  now exists v, evs.
Qed.

Lemma tuyaModule_always_answers_witness :
  exists v evs,
    tuyaModule (scripted cache_is_down) 2 status_query [] = (Return v, evs ++ [])
    /\ (api_calls evs <= 2)%nat /\ (auth_calls evs <= 2)%nat
    /\ (cache_deletes evs <= 1)%nat
    /\ (has_message v = true
        \/ (is_number v = true /\ param status_query "action" = "status")).
Proof.
  apply (tuyaModule_always_answers (scripted cache_is_down) 2 status_query []). lia.
Defined.

(** X11. Whatever the query, the module asks of the cache only this: a
    connection to the server the environment names, and reads, writes and
    deletes of the key tuya_token; a write has a time to live above zero.
    A read, a write or a delete is made on a connection the call has opened
    and not yet called [quit] on, and [quit] is called on a connection the
    call has opened. *)
Theorem tuyaModule_cache_discipline E fuel queryParams tr :
  (2 <= fuel)%nat ->
  exists v evs,
    tuyaModule E fuel queryParams tr = (Return v, evs ++ tr)
    /\ Forall (cache_ok E) evs /\ in_order evs.
Proof.
  intros Hfuel. destruct fuel as [|[|fuel]]; [lia | lia |].
  destruct (tuyaModule_run E fuel queryParams tr)
    as [v evs call (_ & Hc & _ & Hi) _ _ _ _].
  now exists v, evs.
Qed.

Lemma tuyaModule_cache_discipline_witness :
  exists v evs,
    tuyaModule (scripted token_refused) 2 status_query [] = (Return v, evs ++ [])
    /\ Forall (cache_ok (scripted token_refused)) evs /\ in_order evs.
Proof.
  apply (tuyaModule_cache_discipline (scripted token_refused) 2 status_query []). lia.
Defined.

(** X12. Whatever the query, every connection to the cache that a call of
    the module opens has [quit] called on it before the call returns: once
    or twice, and once when no call of [quit] fails.  [quit] is called on
    no other connection. *)
Theorem tuyaModule_releases_connections E fuel queryParams tr :
  (2 <= fuel)%nat ->
  exists v evs,
    tuyaModule E fuel queryParams tr = (Return v, evs ++ tr)
    /\ (forall c, In c (acquired evs) ->
          (length tr <= c < length tr + length evs)%nat
          /\ (1 <= quits c evs <= 2)%nat
          /\ (failed_quits evs = 0%nat -> quits c evs = 1%nat))
    /\ (forall c, ~ In c (acquired evs) -> quits c evs = 0%nat).
Proof.
  intros Hfuel. destruct fuel as [|[|fuel]]; [lia | lia |].
  destruct (tuyaModule_run E fuel queryParams tr)
    as [v evs call (_ & _ & Hh & _) _ _ _ _].
  now exists v, evs.
Qed.

Lemma tuyaModule_releases_connections_witness :
  exists v evs,
    tuyaModule (scripted token_refused) 2 status_query [] = (Return v, evs ++ [])
    /\ (forall c, In c (acquired evs) ->
          (0 <= c < 0 + length evs)%nat
          /\ (1 <= quits c evs <= 2)%nat
          /\ (failed_quits evs = 0%nat -> quits c evs = 1%nat))
    /\ (forall c, ~ In c (acquired evs) -> quits c evs = 0%nat).
Proof.
  apply (tuyaModule_releases_connections (scripted token_refused) 2 status_query []). lia.
Defined.

(** ** The actions *)

Lemma each_resource_request E method path data evs req :
  each_request (request_ok E (Some (method, path, data))) evs ->
  In req (resource_requests evs) ->
  exists t, resource_request_ok E method path data req t.
Proof.
  induction evs as [|ev evs IH]; [intros _ []|].
  destruct ev as [| | | | | |req' r]; cbn [each_request resource_requests flat_map app];
    try exact IH.
  intros [Hreq Hrest] Hin. apply in_app_or in Hin as [Hin|Hin]; [|now apply IH].
  destruct (carries_token req') eqn:Hc; [|contradiction].
  destruct Hin as [<-|[]]. destruct evs as [|[] evs]; try contradiction.
  exists t. unfold request_ok in Hreq. rewrite Hc in Hreq. apply Hreq.
Qed.

Ltac enter_action E fuel :=
  cbv beta iota;
  lazymatch goal with
  | |- context [try_catch
                  (bind (makeCustomRequest _ _ ?m ?p ?d true)
                     (fun result => bind (get_field _ result "success")
                                      (fun success => @?k result success)))
                  ?h ?tr] =>
      let Hk := fresh "Hk" in
      assert (Hk : forall result success t, exists v, k result success t = (Return v, t))
        by (intros; cbv beta; try destruct (has_reading _); eexists; reflexivity);
      let Hrun := fresh "Hrun" in
      pose proof (after_request E fuel m p d k tr Hk) as Hrun; cbv beta in Hrun; clear Hk
  end.

Lemma action_of_param queryParams value :
  param queryParams "action" = value -> value <> "" ->
  (if given queryParams "action" then param queryParams "action" else "test") = value.
Proof.
  intros Ha Hv. unfold given. rewrite Ha.
  destruct (String.eqb_spec value ""); [contradiction | reflexivity].
Qed.





Lemma toLowerCase_given queryParams name value :
  toLowerCase (param queryParams name) = value -> value <> "" ->
  given queryParams name = true.
Proof.
  intros H Hv. unfold given. destruct (String.eqb_spec (param queryParams name) "") as [He|];
    [|reflexivity].
  rewrite He in H. cbn in H. congruence.
Qed.



Lemma upper_ascii_idempotent c : upper_ascii (upper_ascii c) = upper_ascii c.
Proof. destruct c as [[] [] [] [] [] [] [] []]; reflexivity. Qed.

Lemma toUpperCase_idempotent s : toUpperCase (toUpperCase s) = toUpperCase s.
Proof.
  induction s as [|c s IH]; [reflexivity|].
  cbn [toUpperCase]. now rewrite upper_ascii_idempotent, IH.
Qed.

Lemma slash_prefix s : startsWith ("/" +:+ s) "/" = true.
Proof.
  unfold startsWith. change ("/" +:+ s) with (String "/" s). cbn [String.prefix].
  destruct (ascii_dec "/" "/") as [_|H]; [now destruct s | now contradiction H].
Qed.



(** X17. A query that names no action of the module, or names one
    without the parameters it needs (a path for request; an id for status
    and state; an id and a command for control), is answered with a failure
    that repeats the action, and nothing is called. *)
Theorem unroutable_query E fuel queryParams tr :
  credentials_set E ->
  let action := param queryParams "action" in
  action <> "" -> action <> "test" -> action <> "devices" ->
  (action = "request" -> given queryParams "path" = false) ->
  (action = "status" \/ action = "state" -> given queryParams "id" = false) ->
  (action = "control" ->
   given queryParams "id" = false \/ given queryParams "command" = false) ->
  tuyaModule E fuel queryParams tr
  = (Return (JObj [("success", JBool false);
                   ("message", JStr "Unknown action or missing required parameters.");
                   ("action", JStr action)]),
     tr).
Proof.
  intros Hc action H0 Htest Hdevices Hrequest Hid Hcontrol.
  unfold tuyaModule. rewrite (credentials_set_guard E Hc). cbv zeta.
  rewrite (action_of_param _ _ eq_refl) by exact H0. fold action.
  apply String.eqb_neq in Htest, Hdevices. rewrite Htest, Hdevices.
  destruct (String.eqb_spec action "request") as [H|_]; [rewrite (Hrequest H)|].
  all: destruct (String.eqb_spec action "status") as [H1|_];
    [rewrite ?(Hid (or_introl H1))|].
  all: destruct (String.eqb_spec action "state") as [H2|_];
    [rewrite ?(Hid (or_intror H2))|].
  all: destruct (String.eqb_spec action "control") as [H3|_];
    [destruct (Hcontrol H3) as [Hg|Hg]; rewrite ?Hg, ?andb_false_r|].
  all: reflexivity.
Qed.

Lemma unroutable_query_witness :
  tuyaModule (scripted healthy) 2 (<["action" := "status"]> ∅) []
  = (Return (JObj [("success", JBool false);
                   ("message", JStr "Unknown action or missing required parameters.");
                   ("action", JStr "status")]),
     []).
Proof.
  refine (unroutable_query (scripted healthy) 2 (<["action" := "status"]> ∅) []
            _ _ _ _ _ _ _).
  - apply scripted_credentials; reflexivity.
  - discriminate.
  - discriminate.
  - discriminate.
  - discriminate.
  - reflexivity.
  - discriminate.
Defined.



(** ** The endpoints *)

Lemma validateApiKey_spec E apiKey :
  (authorized E apiKey -> validateApiKey E apiKey = None)
  /\ (~ authorized E apiKey -> validateApiKey E apiKey = Some unauthorized).
Proof.
  unfold validateApiKey, authorized. split.
  - intros (key & -> & Hkey & ->). cbn [truthy differs].
    apply String.eqb_neq in Hkey. now rewrite Hkey, String.eqb_refl.
  - intros Hno.
    destruct (negb (truthy apiKey) || differs apiKey (process_env E !! "API_KEY")) eqn:H;
      [reflexivity|].
    exfalso. apply Hno. apply orb_false_elim in H as [Ht Hd].
    destruct apiKey as [| | | |key| |]; try discriminate Ht;
      destruct (process_env E !! "API_KEY") as [valid|]; try discriminate Hd.
    exists key. cbn [truthy differs] in Ht, Hd.
    apply negb_false_iff in Ht, Hd. apply negb_true_iff, String.eqb_neq in Ht.
    apply String.eqb_eq in Hd. subst valid. auto.
Qed.

Lemma get_data_requires_key_helper E fuel apiKey tr :
  authorized E apiKey -> get_data E fuel apiKey tr = data_handler E fuel tr.
Proof.
  intros H. unfold get_data. destruct (validateApiKey_spec E apiKey) as [Hyes _].
  now rewrite (Hyes H).
Qed.

(** X19. GET /data is served only to a request whose [api_key] is a string
    that is not empty and equals the API_KEY of the environment.  Any
    other request, whether the key is absent, empty, wrong, or an array or
    object, is answered with status 401 and the fixed body, and nothing is
    called.  When API_KEY is absent or empty, no request is served. *)
Theorem get_data_requires_api_key E fuel apiKey tr :
  (~ authorized E apiKey -> get_data E fuel apiKey tr = (Return unauthorized, tr))
  /\ (authorized E apiKey -> get_data E fuel apiKey tr = data_handler E fuel tr)
  /\ (env_set E "API_KEY" = false -> ~ authorized E apiKey).
Proof.
  destruct (validateApiKey_spec E apiKey) as [Hyes Hno]. unfold get_data.
  split; [|split].
  - intros H. now rewrite (Hno H).
  - intros H. now rewrite (Hyes H).
  - unfold env_set, env. intros Hset (key & _ & Hkey & Hvalid).
    rewrite Hvalid in Hset. cbn in Hset. apply String.eqb_neq in Hkey.
    now rewrite Hkey in Hset.
Qed.

(** X20. The handler that api/data.js exports and the route GET /data of
    app.js, middleware and handler together, answer every request alike
    and call the same. *)
Theorem api_data_is_get_data E fuel apiKey tr :
  api_data E fuel apiKey tr = get_data E fuel apiKey tr.
Proof.
  unfold api_data, get_data, validateApiKey, data_handler.
  now destruct (negb (truthy apiKey) || differs apiKey (process_env E !! "API_KEY")).
Qed.

(** The status action: what it requests. *)
Lemma status_action_requests E fuel queryParams tr :
  param queryParams "action" = "status" -> given queryParams "id" = true ->
  exists v evs,
    tuyaModule E (S (S fuel)) queryParams tr = (Return v, evs ++ tr)
    /\ (forall req, In req (resource_requests evs) ->
          req_method req = "GET"
          /\ req_url req = "https://openapi.tuyaeu.com/v1.0/iot-03/devices/"
                           +:+ param queryParams "id" +:+ "/status"
          /\ req_data req = None).
Proof.
  intros Ha Hid. unfold tuyaModule.
  destruct (negb (env_set E "TUYA_CLIENT_ID") || negb (env_set E "TUYA_CLIENT_SECRET")).
  { eexists _, []. split; [reflexivity|]. intros req []. }
  cbv zeta. rewrite (action_of_param _ _ Ha) by discriminate. rewrite Hid.
  cbn [String.eqb Ascii.eqb Bool.eqb andb].
  enter_action E fuel.
  destruct Hrun as [req status envelope evs' (Hr & _) _ _ _ Hreq Hs Hn
                   |e evs (Hr & _) _ _ _ He].
  - destruct (has_reading envelope); eexists _, _; (split; [reflexivity|]).
    all: intros req' Hin; destruct (each_resource_request _ _ _ _ _ _ Hr Hin) as (t & H).
    all: destruct H as (H1 & H2 & H3 & _); now rewrite H1, H2, H3.
  - exists (internal_error e), evs. split; [reflexivity|].
    intros req' Hin. destruct (each_resource_request _ _ _ _ _ _ Hr Hin) as (t & H).
    destruct H as (H1 & H2 & H3 & _). now rewrite H1, H2, H3.
Qed.

(** X21. A request to GET /data that shows the API key is answered with
    status 500 and a fixed body, nothing being called, when DEVICE_ID is
    absent or empty.  Otherwise it is answered with status 200, whatever
    happens: the body is what the module returns for the status action on
    that device, a number or an object with a message, be it a failure;
    the answer 'Internal server error' is never given.  The only requests
    for a resource are GET requests for the status of that device. *)
Theorem get_data_answers E fuel apiKey tr :
  authorized E apiKey -> (2 <= fuel)%nat ->
  (env_set E "DEVICE_ID" = false ->
   get_data E fuel apiKey tr
   = (Return {| ans_status := 500;
                ans_body := JObj [("success", JBool false);
                                  ("message",
                                   JStr "Server configuration error: Device ID not set")] |},
      tr))
  /\ (env_set E "DEVICE_ID" = true ->
      exists v evs,
        get_data E fuel apiKey tr
        = (Return {| ans_status := 200; ans_body := v |}, evs ++ tr)
        /\ tuyaModule E fuel (<["action" := "status"]> (<["id" := env E "DEVICE_ID"]> ∅)) tr
           = (Return v, evs ++ tr)
        /\ (has_message v = true \/ is_number v = true)
        /\ (forall req, In req (resource_requests evs) ->
              req_method req = "GET"
              /\ req_url req = "https://openapi.tuyaeu.com/v1.0/iot-03/devices/"
                               +:+ env E "DEVICE_ID" +:+ "/status"
              /\ req_data req = None)).
Proof.
  intros Hkey Hfuel. destruct fuel as [|[|fuel]]; [lia | lia |].
  rewrite (get_data_requires_key_helper E (S (S fuel)) apiKey tr Hkey).
  unfold data_handler, try_catch, bind, ret. cbv zeta. split.
  - now intros ->.
  - intros Hset. rewrite Hset. cbn [negb].
    set (q := <["action" := "status"]> (<["id" := env E "DEVICE_ID"]> ∅)).
    assert (Ha : param q "action" = "status") by reflexivity.
    assert (Hid : param q "id" = env E "DEVICE_ID").
    { unfold param, q. rewrite lookup_insert_ne by discriminate.
      now rewrite lookup_insert. }
    assert (Hgiven : given q "id" = true) by (unfold given; now rewrite Hid).
    destruct (status_action_requests E fuel q tr Ha Hgiven) as (v & evs & Hrun & Hreq).
    pose proof (tuyaModule_run E fuel q tr) as Hm. rewrite Hrun in Hm.
    inversion Hm as [v' evs' call _ _ _ _ Hv].
    match goal with H : _ ++ tr = _ ++ tr |- _ => apply app_inv_tail in H; subst evs' end.
    exists v, evs. rewrite Hrun.
    split; [reflexivity|]. split; [reflexivity|].
    split; [destruct Hv as [Hv|[Hv _]]; auto|].
    now rewrite <- Hid.
Qed.

Lemma get_data_answers_witness :
  exists evs,
    get_data (scripted served) 2 (JStr "k-1") []
    = (Return {| ans_status := 200; ans_body := JNum 23.5 |}, evs ++ []).
Proof.
  destruct (get_data_answers (scripted served) 2 (JStr "k-1") []) as [_ H].
  - exists "k-1". split; [reflexivity|]. split; [discriminate | reflexivity].
  - lia.
  - destruct H as (v & evs & Hrun & _); [reflexivity|].
    exists evs.
    assert (Hfst : fst (get_data (scripted served) 2 (JStr "k-1") [])
                   = Return {| ans_status := 200; ans_body := JNum 23.5 |})
      by (vm_compute; reflexivity).
    rewrite Hrun in Hfst. cbn [fst] in Hfst. now rewrite Hrun, Hfst.
Defined.

(** ** With a cache that keeps what it is given *)

Section Keeping.

Variable E : Environment.
Hypothesis Hcred : credentials_set E.
Hypothesis Hkeeps : cache_keeps E.

Lemma kept_getRedisClient tr :
  getRedisClient E tr
  = (Return (length tr), RedisConnect (redis_url E) (Done (length tr)) :: tr).
Proof.
  destruct Hkeeps as ((Hh & Hp & Hw & Hconn) & _).
  destruct (getRedisClient_runP E tr) as [H|m H|_ _ _ _]; [| |reflexivity].
  - rewrite Hh, Hp, Hw in H. discriminate.
  - rewrite Hconn in H. discriminate.
Qed.

Lemma kept_get c k tr :
  client_get E c k tr = (Return (stored k tr), RedisGet c k (Done (stored k tr)) :: tr).
Proof.
  destruct Hkeeps as (_ & Hget & _). unfold client_get. now rewrite Hget.
Qed.

Lemma kept_set c k v ex tr :
  client_set E c k v ex tr = (Return tt, RedisSet c k v ex (Done tt) :: tr).
Proof.
  destruct Hkeeps as (_ & _ & Hset & _). unfold client_set. now rewrite Hset.
Qed.

Lemma kept_del c k tr :
  client_del E c k tr = (Return tt, RedisDel c k (Done tt) :: tr).
Proof.
  destruct Hkeeps as (_ & _ & _ & Hdel & _). unfold client_del. now rewrite Hdel.
Qed.

Lemma kept_quit c tr :
  client_quit E c tr = (Return tt, RedisQuit c (Done tt) :: tr).
Proof.
  destruct Hkeeps as (_ & _ & _ & _ & Hquit). unfold client_quit. now rewrite Hquit.
Qed.

Lemma kept_sign method path body token tr :
  generateSign E method path body token tr
  = (Return (signature_of E method path body token (Date_now E tr)),
     Clock (Date_now E tr) :: tr).
Proof.
  destruct (generateSignP E method path body token tr) as [H|_];
    [contradiction | reflexivity].
Qed.

Ltac keep_going :=
  repeat (first [ rewrite kept_getRedisClient | rewrite kept_get | rewrite kept_set
                | rewrite kept_del | rewrite kept_quit | rewrite kept_sign ];
          red_js).

(** A read that the cache answers with a token. *)
Lemma kept_hit tr t :
  stored redisKey tr = Some t -> t <> "" ->
  getAccessToken E tr
  = (Return (JStr t),
     [RedisQuit (length tr) (Done tt);
      RedisGet (length tr) redisKey (Done (Some t));
      RedisConnect (redis_url E) (Done (length tr))] ++ tr).
Proof.
  intros Hstored Ht. unfold_js. keep_going.
  cbn [stored]. rewrite Hstored. cbn [cached].
  apply String.eqb_neq in Ht. rewrite Ht. red_js. keep_going. reflexivity.
Qed.

(** A read that the cache answers with nothing: the token is requested,
    written to the cache and returned. *)
Lemma kept_miss tr token :
  vendor_grants E token -> stored redisKey tr = None ->
  exists req status data,
    getAccessToken E tr
    = (Return (JStr token),
       [RedisQuit (length tr) (Done tt);
        RedisSet (length tr) redisKey (JStr token) (ttl_of data) (Done tt);
        Http req (Response status data);
        Clock (Date_now E (RedisGet (length tr) redisKey (Done None)
                           :: RedisConnect (redis_url E) (Done (length tr)) :: tr));
        RedisGet (length tr) redisKey (Done None);
        RedisConnect (redis_url E) (Done (length tr))] ++ tr)
    /\ carries_token req = false.
Proof.
  intros Hvendor Hstored. unfold_js. keep_going.
  cbn [stored]. rewrite Hstored. cbn [cached]. red_js. keep_going.
  match goal with
  | |- context [axios E ?v ?req ?t] =>
      destruct (Hvendor t req eq_refl) as (status & data & Hresp & Hg & Htok & Httl);
      unfold axios; rewrite Hresp; exists req, status, data
  end.
  apply grants_token_inv in Hg as (Hv & Hs & Ht). rewrite Hv. red_js.
  rewrite Hs, Ht. red_js.
  change (if js_gt (field (field data "result") "expire_time") 60
          then js_sub (field (field data "result") "expire_time") 60
          else field (field data "result") "expire_time") with (ttl_of data).
  change (field (field data "result") "access_token") with (granted_token data).
  rewrite Httl, Htok. red_js. keep_going. split; reflexivity.
Qed.

End Keeping.

Lemma vendor_grants_not_empty E token : vendor_grants E token -> token <> "".
Proof.
  intros H ->.
  destruct (H [] {| req_method := ""; req_url := ""; req_headers := [];
                    req_data := None; req_timeout := 0 |} eq_refl)
    as (status & data & _ & Hg & Htok & _).
  apply grants_token_inv in Hg as (_ & _ & Ht). unfold granted_token in Htok.
  unfold opt_field in Ht. destruct (is_nullish (field data "result")); [discriminate|].
  rewrite Htok in Ht. discriminate.
Qed.

(** X22. With a cache that keeps what it is given and a vendor that
    grants a token, a call of [getAccessToken] that finds the cache empty
    asks the vendor once, writes the token to the cache and returns it;
    the next call returns the same token from the cache, without asking
    the vendor and without writing. *)
Theorem getAccessToken_second_call_hits E token tr :
  credentials_set E -> cache_keeps E -> vendor_grants E token ->
  stored redisKey tr = None ->
  exists evs1 evs2,
    getAccessToken E tr = (Return (JStr token), evs1 ++ tr)
    /\ auth_calls evs1 = 1%nat /\ cache_writes evs1 = 1%nat
    /\ stored redisKey (evs1 ++ tr) = Some token
    /\ getAccessToken E (evs1 ++ tr) = (Return (JStr token), evs2 ++ evs1 ++ tr)
    /\ auth_calls evs2 = 0%nat /\ cache_writes evs2 = 0%nat.
Proof.
  intros Hcred Hkeeps Hvendor Hempty.
  destruct (kept_miss E Hcred Hkeeps tr token Hvendor Hempty)
    as (req & status & data & Hrun & Hreq).
  eexists _, _. split; [exact Hrun|].
  split; [unfold auth_calls; rewrite !count_cons; cbn [is_auth_call]; now rewrite Hreq|].
  split; [reflexivity|].
  split; [reflexivity|].
  match goal with
  | |- context [getAccessToken E ?t] =>
      rewrite (kept_hit E Hkeeps t token eq_refl (vendor_grants_not_empty E token Hvendor))
  end.
  split; [reflexivity|]. split; reflexivity.
Qed.

Lemma keeping_credentials : credentials_set keeping.
Proof. split; reflexivity. Qed.

Lemma keeping_cache : cache_keeps keeping.
Proof. repeat split. Qed.

Lemma keeping_vendor : vendor_grants keeping "fresh-token".
Proof.
  intros tr req Hreq. eexists _, _. cbn [http keeping]. rewrite Hreq.
  split; [reflexivity|]. split; [reflexivity|]. split; [reflexivity|].
  vm_compute. reflexivity.
Qed.

Lemma getAccessToken_second_call_hits_witness :
  exists evs1 evs2,
    getAccessToken keeping [] = (Return (JStr "fresh-token"), evs1 ++ [])
    /\ auth_calls evs1 = 1%nat /\ cache_writes evs1 = 1%nat
    /\ stored redisKey (evs1 ++ []) = Some "fresh-token"
    /\ getAccessToken keeping (evs1 ++ [])
       = (Return (JStr "fresh-token"), evs2 ++ evs1 ++ [])
    /\ auth_calls evs2 = 0%nat /\ cache_writes evs2 = 0%nat.
Proof.
  apply (getAccessToken_second_call_hits keeping "fresh-token" []
           keeping_credentials keeping_cache keeping_vendor eq_refl).
Defined.

Lemma header_carries req t :
  header req "access_token" = JStr t -> carries_token req = true.
Proof.
  unfold header, carries_token. induction (req_headers req) as [|[k v] l IH]; [discriminate|].
  cbn [assoc existsb fst]. rewrite String.eqb_sym.
  destruct (String.eqb k "access_token"); [reflexivity | exact IH].
Qed.

Ltac red_pairs := cbv beta iota zeta delta [fst snd].


Lemma keeping_refuses_stale tr req :
  header req "access_token" = JStr "stale-token" ->
  exists status envelope,
    http keeping tr req = Response status envelope /\ is_sentinel status envelope = true.
Proof.
  intros H. cbn [http keeping]. rewrite (header_carries req _ H).
  unfold header in H. rewrite H. eexists _, _. split; reflexivity.
Qed.

Lemma keeping_accepts_fresh tr req :
  header req "access_token" = JStr "fresh-token" ->
  exists status envelope,
    http keeping tr req = Response status envelope
    /\ (200 <=? status) && (status <? 400) = true
    /\ strict_eq_num (opt_field envelope "code") 1010 = false
    /\ is_nullish envelope = false.
Proof.
  intros H. cbn [http keeping]. rewrite (header_carries req _ H).
  unfold header in H. rewrite H. eexists _, _. repeat split; reflexivity.
Qed.

